(** * pdf-redactor: region consolidation and redaction jobs

    A shallow embedding of [redactor/__init__.py]: the coordinate parser,
    the clustering / cleaning / merging algorithm of [ReferenceRedactor],
    the padded rectangles that are drawn, and the two job functions with
    their exception behaviour.

    Numbers.  The Python code computes on [float].  Coordinates are
    modelled here as rationals [Q]: the finite values.  Comparisons
    ([<], [>]) are the rational ones; two representations of the same
    rational compare equal, as two equal floats do.  NaN and the
    infinities are outside the model.

    Arithmetic comes in two layers.  The definitions named after the
    source ([_clean_cluster], [_cluster_and_merge_boxes], ...) compute
    without rounding.  The cleaning, clustering and merging are given a
    second time with every arithmetic operation followed by a rounding
    [fl] ([_clean_cluster_fl], [_cluster_and_merge_boxes_fl], ...): with
    the identity for [fl] they are the first layer
    ([cluster_and_merge_boxes_exact]), with [binary64] they compute as
    the code does.  The split rule of the clustering and the edges of a
    merged region are stated on the second layer, for every [fl]. *)

From Stdlib Require Import QArith Qabs Qround Qpower Lqa Ascii String Sorted.
From stdpp Require Import gmap strings list pretty sorting.

(* ===================================================================== *)
(** * Numeric helpers                                                      *)
(* ===================================================================== *)

(** [a < b] and [a > b] on floats, as booleans. *)
Definition Qltb (a b : Q) : bool := negb (Qle_bool b a).
Definition Qgtb (a b : Q) : bool := Qltb b a.

(* ===================================================================== *)
(** * Constants for ReferenceRedactor                                      *)
(* ===================================================================== *)

Definition HORIZONTAL_THRESHOLD_RATIO : Q := 0.16.
Definition LINE_HEIGHT_MULTIPLIER : Q := 4.0.
Definition VERTICAL_Y_THRESHOLD_TOP : Q := 120.0.
Definition VERTICAL_Y_THRESHOLD_BOTTOM : Q := 80.0.
Definition DELETION_PADDING : Q := 7.

(* ===================================================================== *)
(** * Data model                                                           *)
(* ===================================================================== *)

(** A raw box is the dict [{'x': x, 'y': y, 'w': w, 'h': h}]; its page is
    the key under which it is stored in [boxes_by_page]. *)
Record Box : Type := mkBox {
  box_x : Q;
  box_y : Q;
  box_w : Q;
  box_h : Q
}.

(** A merged box is the dict
    [{'cluster_id': i + 1, 'x': .., 'y': .., 'w': .., 'h': ..}]. *)
Record MergedBox : Type := mkMerged {
  cluster_id : nat;
  merged_x : Q;
  merged_y : Q;
  merged_w : Q;
  merged_h : Q
}.

(* ===================================================================== *)
(** * Library functions used by the algorithm                              *)
(* ===================================================================== *)

Section StableSort.
Context {A K : Type} (ltb : K → K → bool) (key : A → K).

(** [list.sort(key=...)] and [sorted] are stable sorts.  For a total
    preorder on keys the result of a stable sort is determined by the
    input, so insertion sort is a model of it; [sort_by_sorted],
    [sort_by_perm] and [sort_by_stable] below say what is relied on. *)
Fixpoint insert_by (a : A) (l : list A) : list A :=
  match l with
  | [] => [a]
  | c :: l' =>
      if ltb (key c) (key a) then c :: insert_by a l' else a :: c :: l'
  end.

Fixpoint sort_by (l : list A) : list A :=
  match l with
  | [] => []
  | a :: l' => insert_by a (sort_by l')
  end.
End StableSort.

(** [statistics.median(data)]: the middle element of the sorted data, or
    the mean of the two middle elements.  On empty data Python raises
    [StatisticsError]; the one call site is guarded by [if not gaps], and
    the default [0] of [nth] below is not reached for non-empty data
    (lemma [median_nonempty]). *)
Definition median (data : list Q) : Q :=
  let data := sort_by Qltb id data in
  let n := length data in
  if (n mod 2 =? 1)%nat then nth (n / 2) data 0%Q
  else
    let i := (n / 2)%nat in
    ((nth (i - 1) data 0%Q + nth i data 0%Q) / 2)%Q.

(** [min(generator)] and [max(generator)]: the running extremum is
    replaced only by a strictly smaller (greater) item.  Python raises
    [ValueError] on an empty sequence; the merge loop only sees non-empty
    clusters (lemma [cleaned_clusters_nonempty]). *)
Fixpoint min_from (m : Q) (l : list Q) : Q :=
  match l with
  | [] => m
  | v :: l' => min_from (if Qltb v m then v else m) l'
  end.

Fixpoint max_from (m : Q) (l : list Q) : Q :=
  match l with
  | [] => m
  | v :: l' => max_from (if Qgtb v m then v else m) l'
  end.

Definition py_min (l : list Q) : Q :=
  match l with [] => 0%Q | v :: l' => min_from v l' end.

Definition py_max (l : list Q) : Q :=
  match l with [] => 0%Q | v :: l' => max_from v l' end.

(** [max(sub_clusters, key=len)]: the first sub-cluster of maximal
    length. *)
Fixpoint max_len_from {A : Type} (best : list A) (l : list (list A))
  : list A :=
  match l with
  | [] => best
  | c :: l' =>
      max_len_from (if (length best <? length c)%nat then c else best) l'
  end.

(* ===================================================================== *)
(** * ReferenceRedactor._clean_cluster                                     *)
(* ===================================================================== *)

Definition is_in_header (box : Box) : bool :=
  Qltb (box_y box) VERTICAL_Y_THRESHOLD_TOP.

Definition is_in_footer (page_height : Q) (box : Box) : bool :=
  Qgtb (box_y box) (page_height - VERTICAL_Y_THRESHOLD_BOTTOM)%Q.

(** The loop of the size-2 branch: [cleaned_boxes] grows by [append]. *)
Definition clean_pair_loop (page_height : Q) (cluster_boxes : list Box)
  : list Box :=
  foldl (λ cleaned_boxes box,
           if negb (is_in_header box) && negb (is_in_footer page_height box)
           then cleaned_boxes ++ [box] else cleaned_boxes)
        [] cluster_boxes.

(** The list comprehension [gaps]: for [i] from 1, the difference
    [y_i - y_(i-1)] when [y_i > y_(i-1)]. *)
Fixpoint positive_gaps (cluster_boxes : list Box) : list Q :=
  match cluster_boxes with
  | prev :: (cur :: _) as rest =>
      (if Qgtb (box_y cur) (box_y prev)
       then [(box_y cur - box_y prev)%Q] else [])
      ++ positive_gaps rest
  | _ => []
  end.

(** The re-partition loop: [prev] is [cluster_boxes[i - 1]], [rest] is
    [cluster_boxes[i:]], and the state is
    [(sub_clusters, current_sub_cluster)]. *)
Fixpoint sub_cluster_loop (jump_threshold : Q) (prev : Box)
    (rest : list Box) (sub_clusters : list (list Box))
    (current_sub_cluster : list Box) : list (list Box) * list Box :=
  match rest with
  | [] => (sub_clusters, current_sub_cluster)
  | cur :: rest' =>
      let gap := (box_y cur - box_y prev)%Q in
      if Qgtb gap jump_threshold
      then sub_cluster_loop jump_threshold cur rest'
             (sub_clusters ++ [current_sub_cluster]) [cur]
      else sub_cluster_loop jump_threshold cur rest'
             sub_clusters (current_sub_cluster ++ [cur])
  end.

Definition _clean_cluster (cluster_boxes : list Box) (page_height : Q)
  : list Box :=
  match cluster_boxes with
  | [] | [_] => cluster_boxes
  | [_; _] => clean_pair_loop page_height cluster_boxes
  | _ =>
      let cluster_boxes := sort_by Qltb box_y cluster_boxes in
      let gaps := positive_gaps cluster_boxes in
      match gaps with
      | [] => cluster_boxes
      | _ =>
          let standard_line_height := median gaps in
          let jump_threshold :=
            (standard_line_height * LINE_HEIGHT_MULTIPLIER)%Q in
          match cluster_boxes with
          | [] => []
          | first :: rest =>
              let '(sub_clusters, current_sub_cluster) :=
                sub_cluster_loop jump_threshold first rest [] [first] in
              let sub_clusters := sub_clusters ++ [current_sub_cluster] in
              match sub_clusters with
              | [] => []
              | s :: ss => max_len_from s ss
              end
          end
      end
  end.

(* ===================================================================== *)
(** * ReferenceRedactor._cluster_and_merge_boxes                           *)
(* ===================================================================== *)

(** [cleaned = self._clean_cluster(current_cluster, page_height)]
    followed by [if cleaned: clusters.append(cleaned)]. *)
Definition append_cleaned (clusters : list (list Box))
    (current_cluster : list Box) (page_height : Q) : list (list Box) :=
  let cleaned := _clean_cluster current_cluster page_height in
  match cleaned with
  | [] => clusters
  | _ => clusters ++ [cleaned]
  end.

(** The clustering loop: [prev] is [boxes[i - 1]], [rest] is [boxes[i:]],
    and the state is [(clusters, current_cluster)]. *)
Fixpoint cluster_loop (threshold page_height : Q) (prev : Box)
    (rest : list Box) (clusters : list (list Box))
    (current_cluster : list Box) : list (list Box) * list Box :=
  match rest with
  | [] => (clusters, current_cluster)
  | cur :: rest' =>
      let prev_box_left_edge := box_x prev in
      let current_box_left_edge := box_x cur in
      if Qgtb (current_box_left_edge - prev_box_left_edge)%Q threshold
      then cluster_loop threshold page_height cur rest'
             (append_cleaned clusters current_cluster page_height) [cur]
      else cluster_loop threshold page_height cur rest'
             clusters (current_cluster ++ [cur])
  end.

(** The list [clusters] as it stands when the merge loop starts. *)
Definition cleaned_clusters (boxes : list Box) (page_width page_height : Q)
  : list (list Box) :=
  match boxes with
  | [] => []
  | first :: rest =>
      let threshold := (page_width * HORIZONTAL_THRESHOLD_RATIO)%Q in
      let '(clusters, current_cluster) :=
        cluster_loop threshold page_height first rest [] [first] in
      append_cleaned clusters current_cluster page_height
  end.

Definition merge_cluster (i : nat) (cluster : list Box) : MergedBox :=
  let min_x := py_min (map box_x cluster) in
  let min_y := py_min (map box_y cluster) in
  let max_x1 := py_max (map (λ b, box_x b + box_w b)%Q cluster) in
  let max_y1 := py_max (map (λ b, box_y b + box_h b)%Q cluster) in
  {| cluster_id := i + 1;
     merged_x := min_x; merged_y := min_y;
     merged_w := (max_x1 - min_x)%Q; merged_h := (max_y1 - min_y)%Q |}.

(** [for i, cluster in enumerate(clusters)]. *)
Fixpoint merge_loop (i : nat) (clusters : list (list Box))
    (merged_boxes : list MergedBox) : list MergedBox :=
  match clusters with
  | [] => merged_boxes
  | cluster :: clusters' =>
      merge_loop (S i) clusters' (merged_boxes ++ [merge_cluster i cluster])
  end.

Definition _cluster_and_merge_boxes (boxes : list Box)
    (page_width page_height : Q) : list MergedBox :=
  match boxes with
  | [] => []
  | _ => merge_loop 0 (cleaned_clusters boxes page_width page_height) []
  end.

(* ===================================================================== *)
(** * The same algorithm with rounded arithmetic                           *)
(* ===================================================================== *)

(** A float operation returns the exact result rounded to a float.  In
    this section the rounding is a parameter [fl], applied after every
    [+], [-], [*] and [/] of [_clean_cluster] and
    [_cluster_and_merge_boxes] and to the float literals; comparisons,
    [min], [max] and the sort do not round.  The definitions follow the
    ones above line by line. *)
Section Rounded.
Variable fl : Q → Q.

(** The four operations on floats. *)
Definition fl_add (a b : Q) : Q := fl (a + b).
Definition fl_sub (a b : Q) : Q := fl (a - b).
Definition fl_mul (a b : Q) : Q := fl (a * b).
Definition fl_div (a b : Q) : Q := fl (a / b).

(** [statistics.median]: [(data[i - 1] + data[i]) / 2] is a sum and a
    quotient of floats. *)
Definition median_fl (data : list Q) : Q :=
  let data := sort_by Qltb id data in
  let n := length data in
  if (n mod 2 =? 1)%nat then nth (n / 2) data 0%Q
  else
    let i := (n / 2)%nat in
    fl_div (fl_add (nth (i - 1) data 0%Q) (nth i data 0%Q)) 2.

(** A float literal is the rounding of its decimal. *)
Definition is_in_header_fl (box : Box) : bool :=
  Qltb (box_y box) (fl VERTICAL_Y_THRESHOLD_TOP).

Definition is_in_footer_fl (page_height : Q) (box : Box) : bool :=
  Qgtb (box_y box) (fl_sub page_height (fl VERTICAL_Y_THRESHOLD_BOTTOM)).

Definition clean_pair_loop_fl (page_height : Q) (cluster_boxes : list Box)
  : list Box :=
  foldl (λ cleaned_boxes box,
           if negb (is_in_header_fl box)
              && negb (is_in_footer_fl page_height box)
           then cleaned_boxes ++ [box] else cleaned_boxes)
        [] cluster_boxes.

Fixpoint positive_gaps_fl (cluster_boxes : list Box) : list Q :=
  match cluster_boxes with
  | prev :: (cur :: _) as rest =>
      (if Qgtb (box_y cur) (box_y prev)
       then [fl_sub (box_y cur) (box_y prev)] else [])
      ++ positive_gaps_fl rest
  | _ => []
  end.

Fixpoint sub_cluster_loop_fl (jump_threshold : Q) (prev : Box)
    (rest : list Box) (sub_clusters : list (list Box))
    (current_sub_cluster : list Box) : list (list Box) * list Box :=
  match rest with
  | [] => (sub_clusters, current_sub_cluster)
  | cur :: rest' =>
      let gap := fl_sub (box_y cur) (box_y prev) in
      if Qgtb gap jump_threshold
      then sub_cluster_loop_fl jump_threshold cur rest'
             (sub_clusters ++ [current_sub_cluster]) [cur]
      else sub_cluster_loop_fl jump_threshold cur rest'
             sub_clusters (current_sub_cluster ++ [cur])
  end.

Definition _clean_cluster_fl (cluster_boxes : list Box) (page_height : Q)
  : list Box :=
  match cluster_boxes with
  | [] | [_] => cluster_boxes
  | [_; _] => clean_pair_loop_fl page_height cluster_boxes
  | _ =>
      let cluster_boxes := sort_by Qltb box_y cluster_boxes in
      let gaps := positive_gaps_fl cluster_boxes in
      match gaps with
      | [] => cluster_boxes
      | _ =>
          let standard_line_height := median_fl gaps in
          let jump_threshold :=
            fl_mul standard_line_height (fl LINE_HEIGHT_MULTIPLIER) in
          match cluster_boxes with
          | [] => []
          | first :: rest =>
              let '(sub_clusters, current_sub_cluster) :=
                sub_cluster_loop_fl jump_threshold first rest [] [first] in
              let sub_clusters := sub_clusters ++ [current_sub_cluster] in
              match sub_clusters with
              | [] => []
              | s :: ss => max_len_from s ss
              end
          end
      end
  end.

Definition append_cleaned_fl (clusters : list (list Box))
    (current_cluster : list Box) (page_height : Q) : list (list Box) :=
  let cleaned := _clean_cluster_fl current_cluster page_height in
  match cleaned with
  | [] => clusters
  | _ => clusters ++ [cleaned]
  end.

Fixpoint cluster_loop_fl (threshold page_height : Q) (prev : Box)
    (rest : list Box) (clusters : list (list Box))
    (current_cluster : list Box) : list (list Box) * list Box :=
  match rest with
  | [] => (clusters, current_cluster)
  | cur :: rest' =>
      let prev_box_left_edge := box_x prev in
      let current_box_left_edge := box_x cur in
      if Qgtb (fl_sub current_box_left_edge prev_box_left_edge) threshold
      then cluster_loop_fl threshold page_height cur rest'
             (append_cleaned_fl clusters current_cluster page_height) [cur]
      else cluster_loop_fl threshold page_height cur rest'
             clusters (current_cluster ++ [cur])
  end.

(** [threshold = page_width * HORIZONTAL_THRESHOLD_RATIO]. *)
Definition threshold_fl (page_width : Q) : Q :=
  fl_mul page_width (fl HORIZONTAL_THRESHOLD_RATIO).

Definition cleaned_clusters_fl (boxes : list Box)
    (page_width page_height : Q) : list (list Box) :=
  match boxes with
  | [] => []
  | first :: rest =>
      let threshold := threshold_fl page_width in
      let '(clusters, current_cluster) :=
        cluster_loop_fl threshold page_height first rest [] [first] in
      append_cleaned_fl clusters current_cluster page_height
  end.

(** [max_x1 = max(b['x'] + b['w'] for b in cluster)] compares rounded
    sums, and ['w': max_x1 - min_x] is a rounded difference. *)
Definition merge_cluster_fl (i : nat) (cluster : list Box) : MergedBox :=
  let min_x := py_min (map box_x cluster) in
  let min_y := py_min (map box_y cluster) in
  let max_x1 := py_max (map (λ b, fl_add (box_x b) (box_w b)) cluster) in
  let max_y1 := py_max (map (λ b, fl_add (box_y b) (box_h b)) cluster) in
  {| cluster_id := i + 1;
     merged_x := min_x; merged_y := min_y;
     merged_w := fl_sub max_x1 min_x; merged_h := fl_sub max_y1 min_y |}.

Fixpoint merge_loop_fl (i : nat) (clusters : list (list Box))
    (merged_boxes : list MergedBox) : list MergedBox :=
  match clusters with
  | [] => merged_boxes
  | cluster :: clusters' =>
      merge_loop_fl (S i) clusters'
        (merged_boxes ++ [merge_cluster_fl i cluster])
  end.

Definition _cluster_and_merge_boxes_fl (boxes : list Box)
    (page_width page_height : Q) : list MergedBox :=
  match boxes with
  | [] => []
  | _ => merge_loop_fl 0 (cleaned_clusters_fl boxes page_width page_height) []
  end.
End Rounded.

(** Rounding to the nearest binary64 number, ties to even.  A positive
    [x] with [2^e <= x < 2^(e+1)] is scaled by [2^(52-e)] into
    [2^52 <= .. < 2^53], rounded to the nearest integer (the 53-bit
    significand) and scaled back.  The exponent is not bounded: overflow
    and the subnormal range are outside the model. *)

(** The integer nearest to [x], ties to the even one. *)
Definition round_half_even (x : Q) : Z :=
  let f := Qfloor x in
  match (x - inject_Z f ?= 1 # 2)%Q with
  | Lt => f
  | Gt => (f + 1)%Z
  | Eq => if Z.even f then f else (f + 1)%Z
  end.

(** The [e] with [2^e <= x < 2^(e+1)], for [0 < x] (lemma
    [exponent_spec]). *)
Definition exponent (x : Q) : Z :=
  let e0 := (Z.log2 (Qnum x) - Z.log2 (Z.pos (Qden x)))%Z in
  if Qle_bool (2 ^ e0) x then e0 else (e0 - 1)%Z.

Definition round_pos (x : Q) : Q :=
  let s := (52 - exponent x)%Z in
  (inject_Z (round_half_even (x * 2 ^ s)) * 2 ^ (- s))%Q.

Definition binary64 (q : Q) : Q :=
  match Qnum q with
  | Z0 => 0%Q
  | Zpos _ => round_pos q
  | Zneg _ => (- round_pos (- q))%Q
  end.

(* ===================================================================== *)
(** * The structured markup document                                       *)
(* ===================================================================== *)

#[local] Set Warnings "-register-all".

(** An [xml.etree.ElementTree] element: expanded tag name
    ([{namespace}local]), attributes, children in document order. *)
Inductive Element : Type :=
  mkElement (tag : string) (attrib : list (string * string))
            (children : list Element).

Definition elem_tag (e : Element) : string :=
  match e with mkElement t _ _ => t end.
Definition elem_attrib (e : Element) : list (string * string) :=
  match e with mkElement _ a _ => a end.
Definition elem_children (e : Element) : list Element :=
  match e with mkElement _ _ c => c end.

(** [elem.get(name)]. *)
Fixpoint attrib_get (name : string) (attrib : list (string * string))
  : option string :=
  match attrib with
  | [] => None
  | (k, v) :: attrib' =>
      if String.eqb k name then Some v else attrib_get name attrib'
  end.

Definition elem_get (name : string) (e : Element) : option string :=
  attrib_get name (elem_attrib e).

(** [elem.iter(tag)]: the element itself and its descendants, in document
    order, that carry the tag. *)
Fixpoint elem_iter (t : string) (e : Element) : list Element :=
  match e with
  | mkElement tg _ ch =>
      (if String.eqb tg t then [e] else [])
      ++ List.flat_map (elem_iter t) ch
  end.

(** One [//tag] step of [findall]: for every element of the current result,
    the descendants (the element itself excluded) that carry the tag. *)
Definition descendants (t : string) (result : list Element)
  : list Element :=
  List.flat_map (λ e, List.flat_map (elem_iter t) (elem_children e)) result.

Definition tei (local : string) : string :=
  "{http://www.tei-c.org/ns/1.0}" +:+ local.

(** [root.findall('.//tei:back//tei:biblStruct', ns)],
    [root.findall('.//tei:biblStruct', ns)] and
    [root.findall('.//tei:surface', ns)]. *)
Definition findall_back_biblStruct (root : Element) : list Element :=
  descendants (tei "biblStruct") (descendants (tei "back") [root]).
Definition findall_biblStruct (root : Element) : list Element :=
  descendants (tei "biblStruct") [root].
Definition findall_surface (root : Element) : list Element :=
  descendants (tei "surface") [root].

(** [s.split(sep)] for a one-character separator. *)
Fixpoint split (sep : ascii) (s : string) : list string :=
  match s with
  | EmptyString => [EmptyString]
  | String c s' =>
      if Ascii.eqb c sep then EmptyString :: split sep s'
      else match split sep s' with
           | p :: ps => String c p :: ps
           | [] => [String c EmptyString]
           end
  end.

(* ===================================================================== *)
(** * Exceptions, the world, and the external collaborators                *)
(* ===================================================================== *)

(** Exceptions are the instances of [Exception]; what the handlers look
    at is whether one is a [requests.exceptions.RequestException] and what
    [str(e)] is. *)
Inductive exn_class : Type := RequestException | OtherException.

Record exn : Type := mkExn { exn_cls : exn_class; exn_str : string }.

Inductive result (A : Type) : Type :=
| Ok (a : A)
| Raise (e : exn).
Arguments Ok {A} a.
Arguments Raise {A} e.

Record Response : Type := mkResponse {
  status_code : Z;
  content : string
}.

(** A path names a regular file with its bytes, a directory, or nothing. *)
Inductive Entry : Type := File (data : string) | Dir.

(** The world a job runs in: the file system, for every path whether a
    file can be created or replaced there (its directory exists, the
    process may write, ...), and the extraction service, which answers a
    POST of (url, file name, file bytes) or fails. *)
Record World : Type := mkWorld {
  files : gmap string Entry;
  writable : string → bool;
  service : string → string → string → result Response
}.

(** What the code takes from Python and from its libraries without the
    repository defining it. *)
Class Collaborators : Type := {
  (** [int(s)] and [float(s)]; [None] is [ValueError]. *)
  py_int : string → option Z;
  py_float : string → option Q;
  (** The XML parser behind [ET.parse]; [None] is [ParseError]. *)
  xml_fromstring : string → option Element;
  (** [os.path.basename] and [os.path.join]. *)
  os_path_basename : string → string;
  os_path_join : string → string → string;
  (** The rendering engine: an opened document, its page count,
      [doc[i].draw_rect(rect, color=c, fill=c, overlay=True)], and the
      bytes [doc.save] writes; each may fail. *)
  Doc : Type;
  fitz_load : string → result Doc;
  doc_len : Doc → Z;
  page_draw_rect : Doc → Z → (Q * Q * Q * Q) → (Z * Z * Z) → result Doc;
  doc_dump : Doc → result string;
  doc_close : Doc → result unit
}.

Definition eff (A : Type) : Type := World → result A * World.

Definition ret {A : Type} (a : A) : eff A := λ w, (Ok a, w).
Definition raise {A : Type} (e : exn) : eff A := λ w, (Raise e, w).
Definition bind {A B : Type} (m : eff A) (k : A → eff B) : eff B :=
  λ w, match m w with
       | (Ok a, w') => k a w'
       | (Raise e, w') => (Raise e, w')
       end.
Definition lift {A : Type} (r : result A) : eff A := λ w, (r, w).

(** [try: m  except Exception as e: h e]. *)
Definition try_except {A : Type} (m : eff A) (h : exn → eff A) : eff A :=
  λ w, match m w with
       | (Ok a, w') => (Ok a, w')
       | (Raise e, w') => h e w'
       end.

Declare Scope eff_scope.
Delimit Scope eff_scope with eff.
Notation "'let!' x ':=' m 'in' k" := (bind m (λ x, k))
  (at level 10, x name, m at level 100, k at level 200) : eff_scope.

Definition FileNotFoundError (p : string) : exn :=
  mkExn OtherException ("[Errno 2] No such file or directory: '" +:+ p +:+ "'").
Definition IsADirectoryError (p : string) : exn :=
  mkExn OtherException ("[Errno 21] Is a directory: '" +:+ p +:+ "'").
(** The [OSError] of a file that cannot be created or replaced
    ([PermissionError], [FileNotFoundError] for a missing directory, ...). *)
Definition OSError (p : string) : exn :=
  mkExn OtherException ("cannot open '" +:+ p +:+ "' for writing").
Definition SameFileError (p q : string) : exn :=
  mkExn OtherException ("'" +:+ p +:+ "' and '" +:+ q +:+ "' are the same file").
Definition ParseError : exn :=
  mkExn OtherException "not well-formed (invalid token)".

(** [os.path.exists(p)]. *)
Definition os_path_exists (w : World) (p : string) : bool :=
  match files w !! p with Some _ => true | None => false end.

(** [open(p, 'rb').read()]. *)
Definition read_file (p : string) : eff string :=
  λ w, match files w !! p with
       | Some (File data) => (Ok data, w)
       | Some Dir => (Raise (IsADirectoryError p), w)
       | None => (Raise (FileNotFoundError p), w)
       end.

(** [open(p, 'wb').write(data)]: creates or replaces the file. *)
Definition write_file (p : string) (data : string) : eff unit :=
  λ w, match files w !! p with
       | Some Dir => (Raise (IsADirectoryError p), w)
       | _ =>
           if writable w p
           then (Ok (), mkWorld (<[p := File data]> (files w))
                                (writable w) (service w))
           else (Raise (OSError p), w)
       end.

Section Jobs.
Context `{Collaborators}.
Local Open Scope eff_scope.

(** [shutil.copy(src, dst)]: into the directory [dst] under the name of
    [src] when [dst] is a directory; refuses to copy a file onto
    itself. *)
Definition shutil_copy (src dst : string) : eff unit :=
  λ w,
    let dst := match files w !! dst with
               | Some Dir => os_path_join dst (os_path_basename src)
               | _ => dst
               end in
    if bool_decide (src = dst) && os_path_exists w src
    then (Raise (SameFileError src dst), w)
    else (let! data := read_file src in write_file dst data) w.

(** [ET.parse(path).getroot()]. *)
Definition ET_parse (path : string) : eff Element :=
  let! data := read_file path in
  match xml_fromstring data with
  | Some root => ret root
  | None => raise ParseError
  end.

(** [fitz.open(path)] and [doc.save(path)]. *)
Definition fitz_open (path : string) : eff Doc :=
  let! data := read_file path in lift (fitz_load data).
Definition doc_save (doc : Doc) (path : string) : eff unit :=
  let! data := lift (doc_dump doc) in write_file path data.

(* =================================================================== *)
(** ** ReferenceRedactor: parsing                                       *)
(* =================================================================== *)

(** The object: its three paths and [final_pymupdf_coords], a list of
    tuples [(page_num, x0, y0, x1, y1)]. *)
Record ReferenceRedactor : Type := mkRedactor {
  xml_path : string;
  pdf_path : string;
  output_pdf_path : string;
  final_pymupdf_coords : list (Z * Q * Q * Q * Q)
}.

(** [__init__]. *)
Definition new_redactor (xml pdf out : string) : ReferenceRedactor :=
  mkRedactor xml pdf out [].

Definition ValueError : exn :=
  mkExn OtherException "invalid literal".

(** [boxes_by_page[p].append(box)] on a [defaultdict(list)]. *)
Definition dict_append (p : Z) (box : Box)
    (boxes_by_page : gmap Z (list Box)) : gmap Z (list Box) :=
  <[p := default [] (boxes_by_page !! p) ++ [box]]> boxes_by_page.

(** The body of [for box in coords_str.split(';')] for one group;
    [None] is the [ValueError] of [int] or [float]. *)
Definition parse_group (box : string) (boxes_by_page : gmap Z (list Box))
  : option (gmap Z (list Box)) :=
  let parts := split "," box in
  if (length parts =? 5)%nat then
    p ← py_int (nth 0 parts EmptyString);
    x ← py_float (nth 1 parts EmptyString);
    y ← py_float (nth 2 parts EmptyString);
    w ← py_float (nth 3 parts EmptyString);
    h ← py_float (nth 4 parts EmptyString);
    Some (dict_append p (mkBox x y w h) boxes_by_page)
  else Some boxes_by_page.

Fixpoint parse_groups (groups : list string)
    (boxes_by_page : gmap Z (list Box)) : option (gmap Z (list Box)) :=
  match groups with
  | [] => Some boxes_by_page
  | box :: groups' =>
      boxes_by_page ← parse_group box boxes_by_page;
      parse_groups groups' boxes_by_page
  end.

(** The body of [for ref_item in ref_items]; [if coords_str:] holds for
    a present, non-empty attribute. *)
Definition parse_item (ref_item : Element)
    (boxes_by_page : gmap Z (list Box)) : option (gmap Z (list Box)) :=
  match elem_get "coords" ref_item with
  | Some coords_str =>
      if String.eqb coords_str EmptyString then Some boxes_by_page
      else parse_groups (split ";" coords_str) boxes_by_page
  | None => Some boxes_by_page
  end.

Fixpoint parse_items (ref_items : list Element)
    (boxes_by_page : gmap Z (list Box)) : option (gmap Z (list Box)) :=
  match ref_items with
  | [] => Some boxes_by_page
  | ref_item :: ref_items' =>
      boxes_by_page ← parse_item ref_item boxes_by_page;
      parse_items ref_items' boxes_by_page
  end.

(** The two [findall] calls: the scoped search, and the unscoped one when
    the scoped search finds nothing. *)
Definition select_ref_items (root : Element) : list Element :=
  let ref_items := findall_back_biblStruct root in
  match ref_items with
  | [] => findall_biblStruct root
  | _ => ref_items
  end.

(** The [try] body once the root is there. *)
Definition boxes_of_root (root : Element) : option (gmap Z (list Box)) :=
  let ref_items := select_ref_items root in
  match ref_items with
  | [] => Some ∅
  | _ => parse_items ref_items ∅
  end.

Definition _extract_raw_reference_boxes (self : ReferenceRedactor)
  : eff (gmap Z (list Box)) :=
  try_except
    (let! root := ET_parse (xml_path self) in
     match boxes_of_root root with
     | Some boxes_by_page => ret boxes_by_page
     | None => raise ValueError
     end)
    (λ _, ret ∅).

Record PageDim : Type := mkPageDim { width : Q; height : Q }.

(** The inner [try] body of [_get_page_dimensions] for one surface;
    [None] is the [ValueError] or [TypeError] that makes the loop
    [continue].  [surface.get('n')] is [None] without the attribute,
    and [int(None)] raises; [surface.get('lrx', 0)] defaults to 0. *)
Definition surface_dim (surface : Element) : option (Z * Q * Q) :=
  n ← elem_get "n" surface;
  page_num ← py_int n;
  width ← match elem_get "lrx" surface with
          | Some s => py_float s
          | None => Some 0%Q
          end;
  height ← match elem_get "lry" surface with
           | Some s => py_float s
           | None => Some 0%Q
           end;
  Some (page_num, width, height).

Definition page_dimensions_loop (surface_nodes : list Element)
  : gmap Z PageDim :=
  foldl (λ page_dimensions surface,
           match surface_dim surface with
           | Some (page_num, width, height) =>
               if Qgtb width 0 && Qgtb height 0
               then <[page_num := mkPageDim width height]> page_dimensions
               else page_dimensions
           | None => page_dimensions
           end)
        ∅ surface_nodes.

Definition _get_page_dimensions (self : ReferenceRedactor)
  : eff (gmap Z PageDim) :=
  try_except
    (let! root := ET_parse (xml_path self) in
     ret (page_dimensions_loop (findall_surface root)))
    (λ _, ret ∅).

(* =================================================================== *)
(** ** ReferenceRedactor: planning and drawing                          *)
(* =================================================================== *)

(** The body of the page loop: the tuples of one page. *)
Definition page_coords (page_dimensions : gmap Z PageDim)
    (page_num : Z) (boxes : list Box) : list (Z * Q * Q * Q * Q) :=
  let page_dim :=
    default (mkPageDim 595 842) (page_dimensions !! page_num) in
  let merged_boxes :=
    _cluster_and_merge_boxes boxes (width page_dim) (height page_dim) in
  map (λ box, (page_num, merged_x box, merged_y box,
               (merged_x box + merged_w box)%Q,
               (merged_y box + merged_h box)%Q))
      merged_boxes.

(** [sorted(boxes_by_page.items())]: the keys of a dict are distinct, so
    the order is the order of the page numbers. *)
Definition sorted_items (boxes_by_page : gmap Z (list Box))
  : list (Z * list Box) :=
  sort_by Z.ltb fst (map_to_list boxes_by_page).

Definition _calculate_final_coordinates (self : ReferenceRedactor)
  : eff ReferenceRedactor :=
  let! boxes_by_page := _extract_raw_reference_boxes self in
  if (size boxes_by_page =? 0)%nat then ret self
  else
    let! page_dimensions := _get_page_dimensions self in
    let coords :=
      foldl (λ coords '(page_num, boxes),
               coords ++ page_coords page_dimensions page_num boxes)
            [] (sorted_items boxes_by_page) in
    ret (mkRedactor (xml_path self) (pdf_path self)
                    (output_pdf_path self) coords).

Definition DELETION_APPEARANCE : string := "whiteout".

(** [fitz.Rect(x0, y0, x1, y1) + (a, b, c, d)]: component-wise. *)
Definition Rect_add (r d : Q * Q * Q * Q) : Q * Q * Q * Q :=
  let '(x0, y0, x1, y1) := r in
  let '(a, b, c, e) := d in
  ((x0 + a)%Q, (y0 + b)%Q, (x1 + c)%Q, (y1 + e)%Q).

(** The rectangle handed to [draw_rect] for one tuple. *)
Definition final_rect (c : Z * Q * Q * Q * Q) : Q * Q * Q * Q :=
  let '(_, x0, y0, x1, y1) := c in
  Rect_add (x0, y0, x1, y1)
           ((- DELETION_PADDING)%Q, (- DELETION_PADDING)%Q,
            DELETION_PADDING, DELETION_PADDING).

Fixpoint draw_loop (fill_color : Z * Z * Z)
    (coords : list (Z * Q * Q * Q * Q)) (doc : Doc) : result Doc :=
  match coords with
  | [] => Ok doc
  | ((((p, x0), y0), x1), y1) as c :: coords' =>
      let page_index := (p - 1)%Z in
      if (page_index <? doc_len doc)%Z then
        match page_draw_rect doc page_index (final_rect c) fill_color with
        | Ok doc' => draw_loop fill_color coords' doc'
        | Raise e => Raise e
        end
      else draw_loop fill_color coords' doc
  end.

Definition _draw_rects_and_save (self : ReferenceRedactor)
  : eff (bool * string) :=
  try_except
    (let! doc := fitz_open (pdf_path self) in
     let fill_color :=
       if String.eqb DELETION_APPEARANCE "whiteout"
       then (1, 1, 1)%Z else (0, 0, 0)%Z in
     let! doc := lift (draw_loop fill_color (final_pymupdf_coords self) doc) in
     let! _ := doc_save doc (output_pdf_path self) in
     let! _ := lift (doc_close doc) in
     ret (true, "Success ("
                +:+ pretty (length (final_pymupdf_coords self))
                +:+ " area(s) covered)."))
    (λ e, ret (false, "An error occurred during PDF processing: "
                      +:+ exn_str e)).

Definition process (self : ReferenceRedactor) : eff (bool * string) :=
  λ w,
    if negb (os_path_exists w (pdf_path self))
    then (Ok (false, "Corresponding PDF not found at '"
                     +:+ pdf_path self +:+ "'"), w)
    else
      (let! self := _calculate_final_coordinates self in
       match final_pymupdf_coords self with
       | [] =>
           let! _ := shutil_copy (pdf_path self) (output_pdf_path self) in
           ret (true, "No references found; original file copied.")
       | _ => _draw_rects_and_save self
       end) w.

(* =================================================================== *)
(** ** BatchRedactionManager._get_raw_xml_from_grobid                   *)
(* =================================================================== *)

(** [requests.post(grobid_url, files=files, data=payload, timeout=180)]
    with the opened file. *)
Definition requests_post (grobid_url pdf_path : string) (data : string)
  : eff Response :=
  λ w, (service w grobid_url (os_path_basename pdf_path) data, w).

Definition _get_raw_xml_from_grobid
    (pdf_path output_xml_path grobid_url : string) : eff (bool * string) :=
  try_except
    (let! f := read_file pdf_path in
     let! response := requests_post grobid_url pdf_path f in
     if (status_code response =? 200)%Z then
       let! _ := write_file output_xml_path (content response) in
       ret (true, "Success")
     else
       ret (false, "GROBID returned status "
                   +:+ pretty (status_code response)))
    (λ e, match exn_cls e with
          | RequestException => ret (false, "Request Error: " +:+ exn_str e)
          | OtherException =>
              ret (false, "An unexpected error occurred: " +:+ exn_str e)
          end).
End Jobs.

(* ===================================================================== *)
(** * Definitions used to state the properties                             *)
(* ===================================================================== *)

(** Grouping a list into runs: a new run starts between two neighbours
    exactly where [brk] holds.  Both loops of the algorithm compute this
    (lemmas [sub_cluster_loop_runs] and [cluster_loop_runs]). *)
Fixpoint runs {A : Type} (brk : A → A → bool) (l : list A)
  : list (list A) :=
  match l with
  | [] => []
  | a :: l' =>
      match runs brk l' with
      | r :: rs =>
          match l' with
          | b :: _ => if brk a b then [a] :: r :: rs else (a :: r) :: rs
          | [] => [[a]]
          end
      | [] => [[a]]
      end
  end.

(** The index of the group that holds position [i] of the concatenation. *)
Fixpoint cluster_of {A : Type} (groups : list (list A)) (i : nat)
  : option nat :=
  match groups with
  | [] => None
  | g :: groups' =>
      if (i <? length g)%nat then Some 0%nat
      else S <$> cluster_of groups' (i - length g)
  end.

(** The test of the clustering loop, and the clusters as they are handed
    to [_clean_cluster]. *)
Definition x_break (threshold : Q) (prev cur : Box) : bool :=
  Qgtb (box_x cur - box_x prev)%Q threshold.

Definition raw_clusters (boxes : list Box) (page_width : Q)
  : list (list Box) :=
  runs (x_break (page_width * HORIZONTAL_THRESHOLD_RATIO)%Q) boxes.

(** The test of the re-partition loop. *)
Definition y_break (jump_threshold : Q) (prev cur : Box) : bool :=
  Qgtb (box_y cur - box_y prev)%Q jump_threshold.


(** The header zone ([y < 120]) and the footer zone
    ([y > page_height - 80]). *)
Definition in_zone (page_height : Q) (box : Box) : Prop :=
  (box_y box < 120)%Q ∨ (page_height - 80 < box_y box)%Q.

(** The test of the size-2 loop. *)
Definition keep_box (page_height : Q) (box : Box) : bool :=
  negb (is_in_header box) && negb (is_in_footer page_height box).

(** The region bounds the box. *)
Definition bounds (region : MergedBox) (b : Box) : Prop :=
  (merged_x region <= box_x b)%Q ∧
  (merged_y region <= box_y b)%Q ∧
  (box_x b + box_w b <= merged_x region + merged_w region)%Q ∧
  (box_y b + box_h b <= merged_y region + merged_h region)%Q.

(** Rectangle [(x0, y0, x1, y1)] contains rectangle [(a0, b0, a1, b1)]. *)
Definition rect_contains (outer inner : Q * Q * Q * Q) : Prop :=
  let '(x0, y0, x1, y1) := outer in
  let '(a0, b0, a1, b1) := inner in
  (x0 <= a0)%Q ∧ (y0 <= b0)%Q ∧ (a1 <= x1)%Q ∧ (b1 <= y1)%Q.

(** The rectangle of a merged box, as the tuple stores it. *)
Definition merged_rect (m : MergedBox) : Q * Q * Q * Q :=
  (merged_x m, merged_y m,
   (merged_x m + merged_w m)%Q, (merged_y m + merged_h m)%Q).

(** The tuple appended to [coords] for a merged box of a page. *)
Definition coords_tuple (page_num : Z) (m : MergedBox)
  : Z * Q * Q * Q * Q :=
  (page_num, merged_x m, merged_y m,
   (merged_x m + merged_w m)%Q, (merged_y m + merged_h m)%Q).

(** The test of the clustering loop with rounding, and the clusters it
    hands to [_clean_cluster_fl]. *)
Definition x_break_fl (fl : Q → Q) (threshold : Q) (prev cur : Box) : bool :=
  Qgtb (fl_sub fl (box_x cur) (box_x prev)) threshold.

Definition raw_clusters_fl (fl : Q → Q) (boxes : list Box) (page_width : Q)
  : list (list Box) :=
  runs (x_break_fl fl (threshold_fl fl page_width)) boxes.

(** The right edges and the bottom edges of the boxes of a cluster, as
    the merge loop computes them. *)
Definition right_edges_fl (fl : Q → Q) (cluster : list Box) : list Q :=
  map (λ b, fl_add fl (box_x b) (box_w b)) cluster.

Definition bottom_edges_fl (fl : Q → Q) (cluster : list Box) : list Q :=
  map (λ b, fl_add fl (box_y b) (box_h b)) cluster.

(** [if cleaned:] -- a list is true when it is not empty. *)
Definition nonempty {A : Type} (l : list A) : bool :=
  match l with [] => false | _ => true end.

(** Arithmetic that does not round, and a rounding that keeps the
    order. *)
Definition exact_arithmetic (fl : Q → Q) : Prop := ∀ q : Q, (fl q == q)%Q.

Definition monotone_rounding (fl : Q → Q) : Prop :=
  ∀ a b : Q, (a <= b)%Q → (fl a <= fl b)%Q.

(* ===================================================================== *)
(** * Collaborators for worked examples                                    *)
(* ===================================================================== *)

(** Plain decimal numerals, the fragment of what [int] and [float] accept
    that the examples use: an optional sign, digits, and for [float] an
    optional fraction. *)
Definition digit_value (c : ascii) : option Z :=
  let n := Z.of_nat (nat_of_ascii c) in
  if ((48 <=? n) && (n <=? 57))%Z then Some (n - 48)%Z else None.

Fixpoint digits_value (acc : Z) (s : string) : option Z :=
  match s with
  | EmptyString => Some acc
  | String c s' => d ← digit_value c; digits_value (10 * acc + d)%Z s'
  end.

Definition dec_nat (s : string) : option Z :=
  match s with
  | EmptyString => None
  | _ => digits_value 0 s
  end.

Definition dec_int (s : string) : option Z :=
  match s with
  | String "-" s' => Z.opp <$> dec_nat s'
  | String "+" s' => dec_nat s'
  | _ => dec_nat s
  end.

Definition dec_unsigned (s : string) : option Q :=
  match split "." s with
  | [ip] => inject_Z <$> dec_nat ip
  | [ip; fp] =>
      i ← dec_nat ip;
      f ← dec_nat fp;
      let scale := (10 ^ Z.of_nat (String.length fp))%Z in
      Some (Qmake (i * scale + f) (Z.to_pos scale))
  | _ => None
  end.

Definition dec_float (s : string) : option Q :=
  match s with
  | String "-" s' => Qopp <$> dec_unsigned s'
  | String "+" s' => dec_unsigned s'
  | _ => dec_unsigned s
  end.

Definition IndexError : exn := mkExn OtherException "page not in document".

(** A rendering engine that records, per page, the rectangles drawn; a
    document has one blank page per byte of its file. *)
Definition example_collaborators (markup : string → option Element)
  : Collaborators := {|
  py_int := dec_int;
  py_float := dec_float;
  xml_fromstring := markup;
  os_path_basename := λ p, List.last (split "/" p) EmptyString;
  os_path_join := λ a b, a +:+ "/" +:+ b;
  Doc := list (list (Q * Q * Q * Q));
  fitz_load := λ data, Ok (replicate (String.length data) []);
  doc_len := λ doc, Z.of_nat (length doc);
  page_draw_rect := λ doc i rect _,
    if (0 <=? i)%Z then Ok (alter (λ page, page ++ [rect]) (Z.to_nat i) doc)
    else Raise IndexError;
  doc_dump := λ doc, Ok "redacted";
  doc_close := λ _, Ok ()
|}.

(** ** Worked inputs *)

(** A box of width 100 and height 10. *)
Definition ex_box (x y : Q) : Box := mkBox x y 100 10.

(** Five boxes at 12-unit spacing and one stray box 500 units below. *)
Definition ex_column : list Box :=
  [ex_box 50 200; ex_box 50 212; ex_box 50 224; ex_box 50 236;
   ex_box 50 248; ex_box 50 748].

(** Two boxes at the left margin, then three in a second block. *)
Definition ex_page : list Box :=
  [ex_box 50 200; ex_box 50 212; ex_box 300 300; ex_box 310 312;
   ex_box 20 324].

(** Two boxes in the header zone. *)
Definition ex_header_pair : list Box := [ex_box 50 30; ex_box 60 42].

(** A box at x = 310 followed by a box at x = 20. *)
Definition ex_leftward_jump : list Box := [ex_box 310 312; ex_box 20 324].

(** The boxes that [float] reads from x = 2.2, w = 2.9 and from x = 2.5,
    w = 7.9. *)
Definition ex_rounding_pair : list Box :=
  [mkBox (binary64 2.2) 300 (binary64 2.9) 10;
   mkBox (binary64 2.5) 312 (binary64 7.9) 10].

(** A box at x = 0 followed by a box at the float nearest to 95.2. *)
Definition ex_at_threshold : list Box :=
  [ex_box 0 300; ex_box (binary64 95.2) 312].

Definition bibl (coords : string) : Element :=
  mkElement (tei "biblStruct") [("coords", coords)] [].

Definition markup_of (items : list Element) : Element :=
  mkElement (tei "TEI") []
    [mkElement (tei "text") [] [mkElement (tei "back") [] items]].

(** A world with one markup file and its PDF; [can_write] says whether
    files can be created (the output directory exists and is writable). *)
Definition ex_world (can_write : bool) : World :=
  mkWorld (<["xml/a.xml" := File "<TEI/>"]>
             (<["pdf/a.pdf" := File "%PDF"]> ∅))
          (λ _, can_write)
          (λ _ _ _, Ok (mkResponse 200 "<TEI/>")).

Definition ex_redactor : ReferenceRedactor :=
  new_redactor "xml/a.xml" "pdf/a.pdf" "out/a_cleaned.pdf".

(** Markup collaborators: every markup file parses to the given root. *)
Definition with_markup (items : list Element) : Collaborators :=
  example_collaborators (λ _, Some (markup_of items)).

(** ** Definitions used to state further properties *)

Section MoreDefinitions.
Context `{Collaborators}.

(** What one group of a coordinate attribute stands for: a page and a
    box, when it has five fields that [int] and [float] read. *)
Definition group_box (box : string) : option (Z * Box) :=
  let parts := split "," box in
  if (length parts =? 5)%nat then
    p ← py_int (nth 0 parts EmptyString);
    x ← py_float (nth 1 parts EmptyString);
    y ← py_float (nth 2 parts EmptyString);
    w ← py_float (nth 3 parts EmptyString);
    h ← py_float (nth 4 parts EmptyString);
    Some (p, mkBox x y w h)
  else None.

(** The groups of the items' coordinate attributes, in document order. *)
Definition coords_groups (ref_items : list Element) : list string :=
  List.flat_map
    (λ item, match elem_get "coords" item with
             | Some coords_str =>
                 if String.eqb coords_str EmptyString then []
                 else split ";" coords_str
             | None => []
             end)
    ref_items.

(** The boxes that the groups give for page [p], in the groups' order. *)
Definition page_boxes (p : Z) (groups : list string) : list Box :=
  omap (λ g, match group_box g with
             | Some (q, b) => if bool_decide (q = p) then Some b else None
             | None => None
             end)
       groups.
(** The state of the dict after some groups: every page holds the boxes
    of its groups, in order, and no page holds an empty list. *)
Definition dict_holds (m : gmap Z (list Box)) (groups : list string) : Prop :=
  ∀ p, m !! p = match page_boxes p groups with [] => None | l => Some l end.
End MoreDefinitions.

(** The page of a tuple [(page_num, x0, y0, x1, y1)]. *)
Definition coord_page (c : Z * Q * Q * Q * Q) : Z :=
  let '(p, _, _, _, _) := c in p.

(** ** Further worked inputs *)

Definition surface (n lrx lry : string) : Element :=
  mkElement (tei "surface") [("n", n); ("lrx", lrx); ("lry", lry)] [].

(** A markup document with page declarations and reference items. *)
Definition markup_with (surfaces items : list Element) : Element :=
  mkElement (tei "TEI") []
    [mkElement (tei "facsimile") [] surfaces;
     mkElement (tei "text") [] [mkElement (tei "back") [] items]].

Definition with_document (surfaces items : list Element) : Collaborators :=
  example_collaborators (λ _, Some (markup_with surfaces items)).

(** A world whose extraction service answers every request the same. *)
Definition ex_service_world (answer : result Response) : World :=
  mkWorld (<["pdf/a.pdf" := File "%PDF"]> ∅) (λ _, true) (λ _ _ _, answer).


(* ===================================================================== *)
(** * BatchRedactionManager: file names                                    *)
(* ===================================================================== *)

(** [s.rfind(c)] for one character: the highest index at which [c]
    occurs, or -1. *)
Fixpoint rfind_from (c : ascii) (s : string) (i found : Z) : Z :=
  match s with
  | EmptyString => found
  | String d s' =>
      rfind_from c s' (i + 1) (if Ascii.eqb d c then i else found)
  end.

Definition rfind (c : ascii) (s : string) : Z := rfind_from c s 0 (-1).

(** The loop of [genericpath._splitext]: from [filenameIndex] up to the
    last dot, the first character that is not a dot makes the split
    [(p[:dotIndex], p[dotIndex:])]; a name of dots only is not split. *)
Fixpoint splitext_loop (p : string) (dotIndex filenameIndex remaining : nat)
  : string * string :=
  match remaining with
  | O => (p, EmptyString)
  | S remaining' =>
      if negb (String.eqb (substring filenameIndex 1 p) ".")
      then (substring 0 dotIndex p,
            substring dotIndex (String.length p - dotIndex) p)
      else splitext_loop p dotIndex (S filenameIndex) remaining'
  end.

(** [os.path.splitext(p)] of [posixpath]: separator [/], extension
    separator [.]. *)
Definition os_path_splitext (p : string) : string * string :=
  let sepIndex := rfind "/" p in
  let dotIndex := rfind "." p in
  if (sepIndex <? dotIndex)%Z then
    splitext_loop p (Z.to_nat dotIndex) (Z.to_nat (sepIndex + 1))
                  (Z.to_nat (dotIndex - (sepIndex + 1)))
  else (p, EmptyString).

(** [s.replace(old, new)] for a non-empty [old]: the occurrences of [old]
    are replaced from the left, without overlap; [skip] counts the
    characters of a replaced occurrence still to pass over. *)
Fixpoint replace_from (old new s : string) (skip : nat) : string :=
  match s with
  | EmptyString => EmptyString
  | String c s' =>
      match skip with
      | S skip' => replace_from old new s' skip'
      | O =>
          if String.prefix old s
          then new +:+ replace_from old new s' (String.length old - 1)
          else String c (replace_from old new s' 0)
      end
  end.

Definition str_replace (old new s : string) : string :=
  replace_from old new s 0.

(** Whether a character occurs in a string. *)
Fixpoint has_char (c : ascii) (s : string) : bool :=
  match s with
  | EmptyString => false
  | String d s' => Ascii.eqb d c || has_char c s'
  end.

(** Whether [sub] occurs in [s]. *)
Fixpoint occurs_in (sub s : string) : bool :=
  String.prefix sub s
  || match s with
     | EmptyString => false
     | String _ s' => occurs_in sub s'
     end.

Record BatchRedactionManager : Type := mkManager {
  pdf_dir : string;
  xml_dir : string;
  redacted_dir : string;
  grobid_url : string;
  workers : Z
}.

(** The markup file name that [_generate_xmls_concurrently] gives to a
    PDF file name. *)
Definition xml_filename_of (filename : string) : string :=
  (os_path_splitext filename).1 +:+ ".xml".

(** The PDF file name and the output file name that
    [_process_single_redaction] gives to a markup file name. *)
Definition pdf_filename_of (xml_filename : string) : string :=
  (os_path_splitext xml_filename).1 +:+ ".pdf".

Definition output_filename_of (pdf_filename : string) : string :=
  str_replace ".pdf" "_cleaned.pdf" pdf_filename.

Section SingleRedaction.
Context `{Collaborators}.

Definition _process_single_redaction (self : BatchRedactionManager)
    (xml_filename : string) : eff (bool * string) :=
  let xml_path := os_path_join (xml_dir self) xml_filename in
  let pdf_filename := (os_path_splitext xml_filename).1 +:+ ".pdf" in
  let pdf_path := os_path_join (pdf_dir self) pdf_filename in
  let output_pdf_path :=
    os_path_join (redacted_dir self)
                 (str_replace ".pdf" "_cleaned.pdf" pdf_filename) in
  let redactor := new_redactor xml_path pdf_path output_pdf_path in
  process redactor.
End SingleRedaction.

(** A manager with the default directories of [run_batch.py]. *)
Definition ex_manager : BatchRedactionManager :=
  mkManager "pdf_source" "grobid_raw_xml_output" "redacted_pdf_output"
            "http://localhost:8070/api/processFulltextDocument" 10.

(* ===================================================================== *)
(** * Numeric lemmas                                                       *)
(* ===================================================================== *)

Lemma Qltb_lt (a b : Q) : Qltb a b = true ↔ (a < b)%Q.
Proof.
  unfold Qltb. rewrite negb_true_iff. split.
  - intros Hf. apply Qnot_le_lt. intros Hle.
    apply Qle_bool_iff in Hle. congruence.
  - intros Hlt. destruct (Qle_bool b a) eqn:E; [|done].
    apply Qle_bool_iff in E. lra.
Qed.

Lemma Qltb_ge (a b : Q) : Qltb a b = false ↔ (b <= a)%Q.
Proof.
  unfold Qltb. rewrite negb_false_iff. apply Qle_bool_iff.
Qed.

Lemma Qgtb_gt (a b : Q) : Qgtb a b = true ↔ (b < a)%Q.
Proof. apply Qltb_lt. Qed.

Lemma Qgtb_le (a b : Q) : Qgtb a b = false ↔ (a <= b)%Q.
Proof. apply Qltb_ge. Qed.

(* ===================================================================== *)
(** * Rounding to binary64                                                 *)
(* ===================================================================== *)

(** The nearest integer is the floor or the next integer. *)
Lemma round_half_even_bounds (x : Q) :
  (Qfloor x <= round_half_even x <= Qfloor x + 1)%Z.
Proof.
  unfold round_half_even. destruct (_ ?= _)%Q; [destruct (Z.even _)| |]; lia.
Qed.

Lemma round_half_even_ge (x : Q) (k : Z) :
  (inject_Z k <= x)%Q → (k <= round_half_even x)%Z.
Proof.
  intros Hk. pose proof (round_half_even_bounds x) as [Hb _].
  apply Qfloor_resp_le in Hk. rewrite Qfloor_Z in Hk. lia.
Qed.

Lemma round_half_even_le (x : Q) (k : Z) :
  (x <= inject_Z k)%Q → (round_half_even x <= k)%Z.
Proof.
  intros Hk. pose proof (Qfloor_le x) as Hfl.
  pose proof (Qfloor_resp_le _ _ Hk) as Hf. rewrite Qfloor_Z in Hf.
  destruct (Z.eq_dec (Qfloor x) k) as [E|E].
  - unfold round_half_even. rewrite E.
    assert (Hx : (x == inject_Z k)%Q).
    { apply Qle_antisym; [done|]. by rewrite <- E. }
    destruct (x - inject_Z k ?= 1 # 2)%Q eqn:C.
    + apply Qeq_alt in C. lra.
    + lia.
    + apply Qgt_alt in C. lra.
  - pose proof (round_half_even_bounds x). lia.
Qed.

Lemma round_half_even_mono (x y : Q) :
  (x <= y)%Q → (round_half_even x <= round_half_even y)%Z.
Proof.
  intros Hxy. pose proof (Qfloor_resp_le _ _ Hxy) as Hf.
  destruct (Z.eq_dec (Qfloor x) (Qfloor y)) as [E|E].
  - unfold round_half_even. rewrite <- E.
    destruct (x - inject_Z (Qfloor x) ?= 1 # 2)%Q eqn:Cx;
      destruct (y - inject_Z (Qfloor x) ?= 1 # 2)%Q eqn:Cy;
      try (destruct (Z.even (Qfloor x))); try lia;
      repeat match goal with
      | H : (_ ?= _)%Q = Eq |- _ => apply Qeq_alt in H
      | H : (_ ?= _)%Q = Lt |- _ => apply Qlt_alt in H
      | H : (_ ?= _)%Q = Gt |- _ => apply Qgt_alt in H
      end; lra.
  - pose proof (round_half_even_bounds x).
    pose proof (round_half_even_bounds y). lia.
Qed.

Lemma pow2_pos (k : Z) : (0 < 2 ^ k)%Q.
Proof. by apply Qpower_0_lt. Qed.

Lemma pow2_succ (k : Z) : (2 ^ (k + 1) == 2 * 2 ^ k)%Q.
Proof. rewrite Qpower_plus by done. rewrite Qpower_1_r. ring. Qed.

Lemma pow2_le (k l : Z) : (k <= l)%Z → (2 ^ k <= 2 ^ l)%Q.
Proof. intros H. by apply Qpower_le_compat_l. Qed.

Lemma pow2_inject (k : Z) : (0 <= k)%Z → (inject_Z (2 ^ k) == 2 ^ k)%Q.
Proof. intros H. by rewrite Zpower_Qpower. Qed.

Lemma log2_bounds_Q (n : Z) :
  (0 < n)%Z →
  (2 ^ Z.log2 n <= inject_Z n)%Q ∧ (inject_Z n < 2 ^ (Z.log2 n + 1))%Q.
Proof.
  intros Hn. destruct (Z.log2_spec n Hn) as [Hlo Hhi].
  pose proof (Z.log2_nonneg n) as Hl.
  split.
  - rewrite <- pow2_inject by done. by rewrite <- Zle_Qle.
  - rewrite <- pow2_inject by lia. rewrite <- Zlt_Qlt.
    replace (Z.log2 n + 1)%Z with (Z.succ (Z.log2 n)) by lia. done.
Qed.

(** [exponent] is the binary exponent. *)
Lemma exponent_spec (x : Q) :
  (0 < x)%Q → (2 ^ exponent x <= x)%Q ∧ (x < 2 ^ (exponent x + 1))%Q.
Proof.
  intros Hx. destruct x as [n d].
  assert (Hn : (0 < n)%Z).
  { unfold Qlt in Hx. simpl in Hx. lia. }
  destruct (log2_bounds_Q n Hn) as [Hn1 Hn2].
  destruct (log2_bounds_Q (Z.pos d) ltac:(lia)) as [Hd1 Hd2].
  set (ln := Z.log2 n) in *. set (ld := Z.log2 (Z.pos d)) in *.
  assert (Hnd : (n # d == inject_Z n / inject_Z (Z.pos d))%Q)
    by apply Qmake_Qdiv.
  assert (Hdpos : (0 < inject_Z (Z.pos d))%Q).
  { change 0%Q with (inject_Z 0). rewrite <- Zlt_Qlt. lia. }
  assert (Hx' : ((n # d) * inject_Z (Z.pos d) == inject_Z n)%Q).
  { rewrite Hnd. field. lra. }
  unfold exponent. cbn [Qnum Qden]. fold ln ld.
  pose proof (pow2_pos (ln - ld)) as P0.
  pose proof (pow2_pos ld) as Pd.
  pose proof (pow2_pos ln) as Pn.
  assert (E1 : (2 ^ ln == 2 ^ (ln - ld) * 2 ^ ld)%Q).
  { rewrite <- Qpower_plus by done. replace (ln - ld + ld)%Z with ln by lia; reflexivity. }
  pose proof (pow2_succ ln) as Sn. pose proof (pow2_succ ld) as Sd.
  pose proof (pow2_succ (ln - ld)) as S0.
  assert (S1 : (2 ^ (ln - ld) == 2 * 2 ^ (ln - ld - 1))%Q).
  { rewrite <- pow2_succ. replace (ln - ld - 1 + 1)%Z with (ln - ld)%Z by lia; reflexivity. }
  pose proof (pow2_pos (ln - ld - 1)) as P1.
  destruct (Qle_bool (2 ^ (ln - ld)) (n # d)) eqn:Hb.
  - apply Qle_bool_iff in Hb. split; [done|].
    apply Qnot_le_lt. intros Hle.
    assert ((2 ^ (ln - ld + 1)) * 2 ^ ld <= (n # d) * inject_Z (Z.pos d))%Q.
    { pose proof (pow2_pos (ln - ld + 1)).
      apply Qmult_le_compat_nonneg; split; lra. }
    nra.
  - assert (Hlt : (n # d < 2 ^ (ln - ld))%Q).
    { apply Qnot_le_lt. intros Hle. apply Qle_bool_iff in Hle. congruence. }
    replace (ln - ld - 1 + 1)%Z with (ln - ld)%Z by lia.
    split; [|done].
    apply Qnot_lt_le. intros Hlt2.
    assert ((n # d) * inject_Z (Z.pos d)
            < 2 ^ (ln - ld - 1) * 2 ^ (ld + 1))%Q.
    { apply Qle_lt_trans with ((n # d) * 2 ^ (ld + 1))%Q.
      - apply Qmult_le_l; [done|]. lra.
      - apply Qmult_lt_r; [|done]. pose proof (pow2_pos (ld + 1)). lra. }
    nra.
Qed.

Lemma exponent_unique (x : Q) (e : Z) :
  (2 ^ e <= x)%Q → (x < 2 ^ (e + 1))%Q → (0 < x)%Q → exponent x = e.
Proof.
  intros H1 H2 Hx. destruct (exponent_spec x Hx) as [H3 H4].
  assert (e < exponent x + 1)%Z.
  { apply (Qpower_lt_compat_l_inv 2); [|done]. lra. }
  assert (exponent x < e + 1)%Z.
  { apply (Qpower_lt_compat_l_inv 2); [|done]. lra. }
  lia.
Qed.

Lemma exponent_mono (x y : Q) :
  (0 < x)%Q → (x <= y)%Q → (exponent x <= exponent y)%Z.
Proof.
  intros Hx Hxy. destruct (exponent_spec x Hx) as [H1 _].
  destruct (exponent_spec y ltac:(lra)) as [_ H2].
  assert (exponent x < exponent y + 1)%Z.
  { apply (Qpower_lt_compat_l_inv 2); [|done]. lra. }
  lia.
Qed.

(** Rounding stays within the binade. *)
Lemma round_pos_bounds (x : Q) :
  (0 < x)%Q →
  (2 ^ exponent x <= round_pos x)%Q ∧ (round_pos x <= 2 ^ (exponent x + 1))%Q.
Proof.
  intros Hx. destruct (exponent_spec x Hx) as [H1 H2].
  unfold round_pos. set (e := exponent x) in *. set (s := (52 - e)%Z).
  pose proof (pow2_pos s) as Ps. pose proof (pow2_pos (- s)) as Pms.
  pose proof (pow2_pos e) as Pe.
  assert (Es : (2 ^ s * 2 ^ (- s) == 1)%Q).
  { rewrite <- Qpower_plus by done. replace (s + - s)%Z with 0%Z by lia; reflexivity. }
  assert (E52 : (2 ^ e * 2 ^ s == inject_Z (2 ^ 52))%Q).
  { rewrite <- Qpower_plus by done. unfold s.
    replace (e + (52 - e))%Z with 52%Z by lia. by rewrite pow2_inject. }
  assert (E53 : (2 ^ (e + 1) * 2 ^ s == inject_Z (2 ^ 53))%Q).
  { rewrite <- Qpower_plus by done. unfold s.
    replace (e + 1 + (52 - e))%Z with 53%Z by lia. by rewrite pow2_inject. }
  assert (Hlo : (2 ^ 52 <= round_half_even (x * 2 ^ s))%Z).
  { apply round_half_even_ge. rewrite <- E52. apply Qmult_le_compat_r; lra. }
  assert (Hhi : (round_half_even (x * 2 ^ s) <= 2 ^ 53)%Z).
  { apply round_half_even_le. rewrite <- E53. apply Qmult_le_compat_r; lra. }
  rewrite Zle_Qle in Hlo, Hhi. rewrite <- E52 in Hlo. rewrite <- E53 in Hhi.
  set (m := inject_Z (round_half_even (x * 2 ^ s))) in *.
  pose proof (pow2_pos (e + 1)) as Pe1.
  split.
  - assert (2 ^ e * 2 ^ s * 2 ^ (- s) <= m * 2 ^ (- s))%Q
      by (apply Qmult_le_compat_r; lra).
    nra.
  - assert (m * 2 ^ (- s) <= 2 ^ (e + 1) * 2 ^ s * 2 ^ (- s))%Q
      by (apply Qmult_le_compat_r; lra).
    nra.
Qed.

Lemma round_pos_mono (x y : Q) :
  (0 < x)%Q → (x <= y)%Q → (round_pos x <= round_pos y)%Q.
Proof.
  intros Hx Hxy.
  pose proof (exponent_mono x y Hx Hxy) as He.
  destruct (Z.eq_dec (exponent x) (exponent y)) as [E|E].
  - unfold round_pos. rewrite E. set (s := (52 - exponent y)%Z).
    pose proof (pow2_pos s) as Ps. pose proof (pow2_pos (- s)) as Pms.
    apply Qmult_le_compat_r; [|lra].
    rewrite <- Zle_Qle. apply round_half_even_mono.
    apply Qmult_le_compat_r; lra.
  - destruct (round_pos_bounds x Hx) as [_ H1].
    destruct (round_pos_bounds y ltac:(lra)) as [H2 _].
    pose proof (pow2_le (exponent x + 1) (exponent y) ltac:(lia)). lra.
Qed.

Lemma round_pos_pos (x : Q) : (0 < x)%Q → (0 < round_pos x)%Q.
Proof.
  intros Hx. destruct (round_pos_bounds x Hx) as [H _].
  pose proof (pow2_pos (exponent x)). lra.
Qed.

Lemma Qnum_sign (q : Q) :
  match Qnum q with
  | Z0 => (q == 0)%Q
  | Zpos _ => (0 < q)%Q
  | Zneg _ => (q < 0)%Q
  end.
Proof. destruct q as [[|p|p] d]; unfold Qeq, Qlt; simpl; lia. Qed.

(** Rounding to nearest keeps the order. *)
Lemma binary64_monotone : monotone_rounding binary64.
Proof.
  intros a b Hab. unfold binary64.
  pose proof (Qnum_sign a) as Ha. pose proof (Qnum_sign b) as Hb.
  destruct (Qnum a), (Qnum b); try lra.
  - pose proof (round_pos_pos b Hb). lra.
  - by apply round_pos_mono.
  - pose proof (round_pos_pos (- a) ltac:(lra)). lra.
  - pose proof (round_pos_pos (- a) ltac:(lra)).
    pose proof (round_pos_pos b Hb). lra.
  - pose proof (round_pos_mono (- b) (- a) ltac:(lra) ltac:(lra)). lra.
Qed.

Lemma binary64_zero : binary64 0 = 0%Q.
Proof. reflexivity. Qed.

(** Equal rationals round to equal rationals. *)
Lemma binary64_comp (a b : Q) : (a == b)%Q → (binary64 a == binary64 b)%Q.
Proof.
  intros Hab. apply Qle_antisym; apply binary64_monotone; lra.
Qed.


(* ===================================================================== *)
(** * Runs                                                                 *)
(* ===================================================================== *)

Section Runs.
Context {A : Type} (brk : A → A → bool).

Lemma runs_cons2 (a b : A) (l : list A) :
  runs brk (a :: b :: l)
  = match runs brk (b :: l) with
    | r :: rs => if brk a b then [a] :: r :: rs else (a :: r) :: rs
    | [] => [[a]]
    end.
Proof. reflexivity. Qed.

Lemma runs_cons_nonempty (a : A) (l : list A) : runs brk (a :: l) ≠ [].
Proof.
  simpl. destruct (runs brk l) as [|r rs]; [done|].
  destruct l as [|b l]; [done|]. by destruct (brk a b).
Qed.

Lemma runs_concat (l : list A) : concat (runs brk l) = l.
Proof.
  induction l as [|a l IH]; [done|].
  simpl. destruct (runs brk l) as [|r rs] eqn:E.
  - destruct l as [|b l]; [done|]. by apply runs_cons_nonempty in E.
  - destruct l as [|b l].
    + simpl in E. discriminate.
    + destruct (brk a b); simpl in *; by rewrite IH.
Qed.

Lemma runs_all_nonempty (l : list A) : Forall (λ r, r ≠ []) (runs brk l).
Proof.
  induction l as [|a l IH]; [constructor|].
  simpl. destruct (runs brk l) as [|r rs]; [by repeat constructor|].
  destruct l as [|b l]; [by repeat constructor|].
  inversion IH; subst.
  destruct (brk a b); repeat constructor; done.
Qed.

Lemma cluster_of_cons_head (a : A) (r : list A) (rs : list (list A)) (i : nat) :
  r ≠ [] →
  cluster_of ((a :: r) :: rs) (S i) = cluster_of (r :: rs) i.
Proof.
  intros Hr. simpl.
  destruct (Nat.ltb_spec (S i) (S (length r))), (Nat.ltb_spec i (length r));
    try lia; done.
Qed.

Lemma cluster_of_after_singleton (a : A) (gs : list (list A)) (i : nat) :
  cluster_of ([a] :: gs) (S i) = S <$> cluster_of gs i.
Proof. simpl. by rewrite Nat.sub_0_r. Qed.

(** Two neighbours are in different runs exactly where [brk] holds. *)
Lemma runs_cut (l : list A) (i : nat) (a b : A) :
  l !! i = Some a → l !! S i = Some b →
  cluster_of (runs brk l) i ≠ cluster_of (runs brk l) (S i) ↔ brk a b = true.
Proof.
  revert i. induction l as [|c l IH]; intros i Ha Hb; [done|].
  destruct l as [|d l]; [done|].
  pose proof (runs_all_nonempty (d :: l)) as Hne.
  rewrite runs_cons2.
  destruct (runs brk (d :: l)) as [|r rs] eqn:E.
  { by apply runs_cons_nonempty in E. }
  inversion Hne as [|? ? Hr _]; subst.
  destruct i as [|i].
  - simpl in Ha, Hb. simplify_eq.
    destruct r as [|r0 r]; [done|].
    destruct (brk a b); simpl; split; intros; congruence.
  - simpl in Ha. pose proof (IH i Ha Hb) as IHi.
    destruct (brk c d).
    + rewrite !cluster_of_after_singleton, <- IHi. split; intros Hx Hy; apply Hx.
      * by rewrite Hy.
      * destruct (cluster_of (r :: rs) i), (cluster_of (r :: rs) (S i));
          simpl in Hy; congruence.
    + rewrite !cluster_of_cons_head by done. exact IHi.
Qed.
End Runs.

(* ===================================================================== *)
(** * The two loops compute runs                                           *)
(* ===================================================================== *)

Lemma sub_cluster_loop_runs (jt : Q) (rest : list Box) :
  ∀ (prev : Box) (subs : list (list Box)) (pre : list Box),
    ∃ r rs,
      runs (y_break jt) (prev :: rest) = r :: rs ∧
      (let '(Ss, C) := sub_cluster_loop jt prev rest subs (pre ++ [prev]) in
       Ss ++ [C]) = subs ++ (pre ++ r) :: rs.
Proof.
  induction rest as [|cur rest IH]; intros prev subs pre.
  - exists [prev], []. by split.
  - rewrite runs_cons2. cbn [sub_cluster_loop]. fold (y_break jt prev cur).
    destruct (y_break jt prev cur) eqn:Hb.
    + destruct (IH cur (subs ++ [pre ++ [prev]]) []) as (r & rs & Hr & Hs).
      rewrite Hr. exists [prev], (r :: rs). split; [done|].
      simpl in Hs. rewrite Hs. by rewrite <- app_assoc.
    + destruct (IH cur subs (pre ++ [prev])) as (r & rs & Hr & Hs).
      rewrite Hr. exists (prev :: r), rs. split; [done|].
      rewrite Hs. by rewrite <- (app_assoc pre [prev] r).
Qed.

Lemma cluster_loop_runs (th ph : Q) (rest : list Box) :
  ∀ (prev : Box) (clusters : list (list Box)) (pre : list Box),
    ∃ r rs,
      runs (x_break th) (prev :: rest) = r :: rs ∧
      (let '(Cs, C) := cluster_loop th ph prev rest clusters (pre ++ [prev]) in
       append_cleaned Cs C ph)
      = foldl (λ acc c, append_cleaned acc c ph) clusters ((pre ++ r) :: rs).
Proof.
  induction rest as [|cur rest IH]; intros prev clusters pre.
  - exists [prev], []. by split.
  - rewrite runs_cons2. cbn [cluster_loop]. fold (x_break th prev cur).
    destruct (x_break th prev cur) eqn:Hb.
    + destruct (IH cur (append_cleaned clusters (pre ++ [prev]) ph) [])
        as (r & rs & Hr & Hs).
      rewrite Hr. exists [prev], (r :: rs). split; [done|].
      simpl in Hs. by rewrite Hs.
    + destruct (IH cur clusters (pre ++ [prev])) as (r & rs & Hr & Hs).
      rewrite Hr. exists (prev :: r), rs. split; [done|].
      rewrite Hs. by rewrite <- (app_assoc pre [prev] r).
Qed.

(** The list [clusters] of the source is obtained by cleaning the raw
    clusters one after the other. *)
Lemma cleaned_clusters_raw (boxes : list Box) (pw ph : Q) :
  cleaned_clusters boxes pw ph
  = foldl (λ acc c, append_cleaned acc c ph) [] (raw_clusters boxes pw).
Proof.
  destruct boxes as [|first rest]; [done|].
  unfold cleaned_clusters, raw_clusters.
  destruct (cluster_loop_runs (pw * HORIZONTAL_THRESHOLD_RATIO) ph rest
              first [] []) as (r & rs & Hr & Hs).
  rewrite Hr. simpl in Hs.
  destruct (cluster_loop _ _ _ _ _ _) as [Cs C]. exact Hs.
Qed.

(** The clustering loop with rounding computes the runs cut by
    [x_break_fl], cleaned one after the other. *)
Lemma cluster_loop_fl_runs (fl : Q → Q) (th ph : Q) (rest : list Box) :
  ∀ (prev : Box) (clusters : list (list Box)) (pre : list Box),
    ∃ r rs,
      runs (x_break_fl fl th) (prev :: rest) = r :: rs ∧
      (let '(Cs, C) :=
         cluster_loop_fl fl th ph prev rest clusters (pre ++ [prev]) in
       append_cleaned_fl fl Cs C ph)
      = foldl (λ acc c, append_cleaned_fl fl acc c ph) clusters
              ((pre ++ r) :: rs).
Proof.
  induction rest as [|cur rest IH]; intros prev clusters pre.
  - exists [prev], []. by split.
  - rewrite runs_cons2. cbn [cluster_loop_fl].
    fold (x_break_fl fl th prev cur).
    destruct (x_break_fl fl th prev cur) eqn:Hb.
    + destruct (IH cur (append_cleaned_fl fl clusters (pre ++ [prev]) ph) [])
        as (r & rs & Hr & Hs).
      rewrite Hr. exists [prev], (r :: rs). split; [done|].
      simpl in Hs. by rewrite Hs.
    + destruct (IH cur clusters (pre ++ [prev])) as (r & rs & Hr & Hs).
      rewrite Hr. exists (prev :: r), rs. split; [done|].
      rewrite Hs. by rewrite <- (app_assoc pre [prev] r).
Qed.

(** Appending the cleaned clusters that are not empty. *)
Lemma foldl_append_cleaned_fl_filter (fl : Q → Q) (ph : Q)
    (cl : list (list Box)) :
  ∀ acc,
    foldl (λ acc c, append_cleaned_fl fl acc c ph) acc cl
    = acc ++ List.filter nonempty (map (λ c, _clean_cluster_fl fl c ph) cl).
Proof.
  induction cl as [|c cl IH]; intros acc; simpl; [by rewrite app_nil_r|].
  rewrite IH. unfold append_cleaned_fl.
  destruct (_clean_cluster_fl fl c ph); simpl; [done|].
  by rewrite <- app_assoc.
Qed.

Lemma cleaned_clusters_fl_raw (fl : Q → Q) (boxes : list Box) (pw ph : Q) :
  cleaned_clusters_fl fl boxes pw ph
  = List.filter nonempty
      (map (λ c, _clean_cluster_fl fl c ph) (raw_clusters_fl fl boxes pw)).
Proof.
  destruct boxes as [|first rest]; [done|].
  unfold cleaned_clusters_fl, raw_clusters_fl.
  destruct (cluster_loop_fl_runs fl (threshold_fl fl pw) ph rest first [] [])
    as (r & rs & Hr & Hs).
  rewrite Hr.
  destruct (cluster_loop_fl _ _ _ _ _ _ _) as [Cs C].
  rewrite Hs. by rewrite foldl_append_cleaned_fl_filter.
Qed.

(** Without rounding the second layer is the first. *)
Lemma clean_cluster_exact (c : list Box) (ph : Q) :
  _clean_cluster_fl (λ q, q) c ph = _clean_cluster c ph.
Proof. reflexivity. Qed.

Lemma cleaned_clusters_exact (boxes : list Box) (pw ph : Q) :
  cleaned_clusters_fl (λ q, q) boxes pw ph = cleaned_clusters boxes pw ph.
Proof. reflexivity. Qed.

Lemma cluster_and_merge_boxes_exact (boxes : list Box) (pw ph : Q) :
  _cluster_and_merge_boxes_fl (λ q, q) boxes pw ph
  = _cluster_and_merge_boxes boxes pw ph.
Proof. reflexivity. Qed.

(** C1.  Horizontal clustering, for every rounding [fl] of the float
    operations: going through one page's boxes in their given order, two
    consecutive boxes are put in different clusters if and only if the
    signed difference, current box's left edge minus previous box's left
    edge, as the code computes it, exceeds the computed threshold
    page_width x 0.16; at or below the threshold they land in the same
    cluster.  Without rounding the test is
    x_cur - x_prev > 0.16 x page_width.  A box whose left edge is at or
    to the left of the previous one never starts a new cluster (for a
    rounding that keeps the order and keeps 0, and a page width that is
    not negative).  The clusters are the raw ones; the list [clusters]
    of the source holds, in order, the results of [_clean_cluster] on
    them that are not empty. *)
Theorem horizontal_clustering_splits_iff_signed_gap_exceeds
    (fl : Q → Q) (boxes : list Box) (page_width page_height : Q) :
  let threshold := fl (page_width * fl 0.16)%Q in
  let clusters := raw_clusters_fl fl boxes page_width in
  cleaned_clusters_fl fl boxes page_width page_height
    = List.filter nonempty
        (map (λ c, _clean_cluster_fl fl c page_height) clusters)
  ∧ concat clusters = boxes
  ∧ ∀ (i : nat) (prev cur : Box),
      boxes !! i = Some prev → boxes !! S i = Some cur →
      (cluster_of clusters i ≠ cluster_of clusters (S i)
         ↔ (threshold < fl (box_x cur - box_x prev))%Q)
      ∧ (cluster_of clusters i = cluster_of clusters (S i)
         ↔ (fl (box_x cur - box_x prev) <= threshold)%Q)
      ∧ (exact_arithmetic fl →
         (cluster_of clusters i ≠ cluster_of clusters (S i)
            ↔ (0.16 * page_width < box_x cur - box_x prev)%Q))
      ∧ (monotone_rounding fl → (fl 0 == 0)%Q → (0 <= page_width)%Q →
         (box_x cur <= box_x prev)%Q →
         cluster_of clusters i = cluster_of clusters (S i)).
Proof.
  intros threshold clusters. split; [apply cleaned_clusters_fl_raw|].
  split; [apply runs_concat|].
  intros i prev cur Hp Hc.
  pose proof (runs_cut (x_break_fl fl (threshold_fl fl page_width))
                boxes i prev cur Hp Hc) as Hcut.
  fold (raw_clusters_fl fl boxes page_width) in Hcut. fold clusters in Hcut.
  unfold x_break_fl, threshold_fl, fl_sub, fl_mul, HORIZONTAL_THRESHOLD_RATIO
    in Hcut.
  fold threshold in Hcut.
  assert (Hsame : cluster_of clusters i = cluster_of clusters (S i)
                  ↔ (fl (box_x cur - box_x prev) <= threshold)%Q).
  { rewrite <- Qgtb_le, <- not_true_iff_false, <- Hcut. split.
    - intros Heq Hne. done.
    - intros Hnn.
      destruct (decide (cluster_of clusters i = cluster_of clusters (S i)))
        as [|Hne]; [done|]. by destruct Hnn. }
  split_and!.
  - by rewrite Hcut, Qgtb_gt.
  - exact Hsame.
  - intros Hfl. rewrite Hcut, Qgtb_gt. unfold threshold.
    pose proof (Hfl (box_x cur - box_x prev)%Q) as Ed.
    pose proof (Hfl (page_width * fl 0.16)%Q) as Et.
    pose proof (Hfl 0.16%Q) as Er.
    split; intros; nra.
  - intros Hmono H0 Hpw Hle. apply Hsame.
    assert (Hd : (fl (box_x cur - box_x prev) <= 0)%Q).
    { rewrite <- H0. apply Hmono. lra. }
    assert (Hr : (0 <= fl 0.16)%Q).
    { rewrite <- H0. apply Hmono. lra. }
    assert (Ht : (0 <= threshold)%Q).
    { unfold threshold. rewrite <- H0. apply Hmono. nra. }
    lra.
Qed.

(* ===================================================================== *)
(** * The stable sort                                                      *)
(* ===================================================================== *)

Section SortFacts.
Context {A : Type} (key : A → Q).

Lemma insert_by_perm (a : A) (l : list A) :
  insert_by Qltb key a l ≡ₚ a :: l.
Proof.
  induction l as [|c l IH]; [done|].
  simpl. destruct (Qltb (key c) (key a)); [|done].
  rewrite IH. apply perm_swap.
Qed.

Lemma sort_by_perm (l : list A) : sort_by Qltb key l ≡ₚ l.
Proof.
  induction l as [|a l IH]; [done|].
  simpl. by rewrite insert_by_perm, IH.
Qed.





End SortFacts.

(** The median of non-empty data is an element of the data or the mean of
    two of them: the default of [nth] does not show. *)
Lemma median_nonempty (data : list Q) :
  data ≠ [] →
  ∃ a b, a ∈ data ∧ b ∈ data ∧
         (median data = a ∨ median data = ((a + b) / 2)%Q).
Proof.
  intros Hne. unfold median.
  pose proof (sort_by_perm id data) as Hp.
  set (s := sort_by Qltb id data) in *.
  assert (Hlen : (0 < length s)%nat).
  { rewrite Hp. destruct data; [done|simpl; lia]. }
  assert (Hin : ∀ i, (i < length s)%nat → nth i s 0%Q ∈ data).
  { intros i Hi. rewrite <- Hp. apply list_elem_of_In. by apply nth_In. }
  destruct (length s mod 2 =? 1)%nat eqn:E.
  - exists (nth (length s / 2) s 0%Q), (nth (length s / 2) s 0%Q).
    split_and!; [apply Hin, Nat.div_lt; lia ..|by left].
  - exists (nth (length s / 2 - 1) s 0%Q), (nth (length s / 2) s 0%Q).
    assert (length s / 2 < length s)%nat by (apply Nat.div_lt; lia).
    split_and!; [apply Hin; lia | by apply Hin | by right].
Qed.

(* ===================================================================== *)
(** * max by length                                                        *)
(* ===================================================================== *)

(** [max(l, key=len)] is the first element of maximal length. *)
Lemma max_len_from_first {A : Type} (l : list (list A)) :
  ∀ best : list A,
    ∃ k : nat,
      (best :: l) !! k = Some (max_len_from best l) ∧
      (∀ c, c ∈ best :: l → length c ≤ length (max_len_from best l)) ∧
      (∀ j c, j < k → (best :: l) !! j = Some c →
              length c < length (max_len_from best l)).
Proof.
  induction l as [|c l IH]; intros best.
  - exists 0. split_and!; [done| |intros; lia].
    intros c Hc. apply list_elem_of_singleton in Hc. by subst.
  - cbn [max_len_from]. destruct (Nat.ltb_spec (length best) (length c)) as [Hlt|Hge].
    + destruct (IH c) as (k & Hk & Hmax & Hfirst).
      assert (length c ≤ length (max_len_from c l)) by (apply Hmax; set_solver).
      exists (S k). split_and!; [done| |].
      * intros d Hd. apply elem_of_cons in Hd as [->|Hd]; [lia|by apply Hmax].
      * intros [|j] d Hj Hd; simpl in Hd.
        -- simplify_eq. lia.
        -- apply (Hfirst j); [lia|done].
    + destruct (IH best) as (k & Hk & Hmax & Hfirst).
      assert (length best ≤ length (max_len_from best l))
        by (apply Hmax; set_solver).
      destruct k as [|k].
      * exists 0. split_and!; [done| |intros; lia].
        intros d Hd. apply elem_of_cons in Hd as [->|Hd]; [done|].
        apply elem_of_cons in Hd as [->|Hd]; [lia|]. apply Hmax. set_solver.
      * exists (S (S k)). split_and!; [done| |].
        -- intros d Hd. apply elem_of_cons in Hd as [->|Hd]; [done|].
           apply elem_of_cons in Hd as [->|Hd]; [lia|]. apply Hmax. set_solver.
        -- assert (length best < length (max_len_from best l))
             by (apply (Hfirst 0); [lia|done]).
           intros [|[|j]] d Hj Hd; simpl in Hd.
           ++ by simplify_eq.
           ++ simplify_eq. lia.
           ++ apply (Hfirst (S j)); [lia|done].
Qed.

(* ===================================================================== *)
(** * _clean_cluster, case by case                                         *)
(* ===================================================================== *)

Lemma clean_pair_loop_filter (ph : Q) (l : list Box) :
  clean_pair_loop ph l = List.filter (keep_box ph) l.
Proof.
  unfold clean_pair_loop.
  enough (∀ acc,
    foldl (λ cleaned_boxes box,
             if negb (is_in_header box) && negb (is_in_footer ph box)
             then cleaned_boxes ++ [box] else cleaned_boxes) acc l
    = acc ++ List.filter (keep_box ph) l) as Hg by apply Hg.
  induction l as [|b l IH]; intros acc; simpl.
  - by rewrite app_nil_r.
  - rewrite IH. unfold keep_box.
    destruct (negb (is_in_header b) && negb (is_in_footer ph b)); [|done].
    by rewrite <- app_assoc.
Qed.

Lemma keep_box_zone (ph : Q) (box : Box) :
  keep_box ph box = true ↔ ¬ in_zone ph box.
Proof.
  unfold keep_box, in_zone, is_in_header, is_in_footer,
    VERTICAL_Y_THRESHOLD_TOP, VERTICAL_Y_THRESHOLD_BOTTOM.
  rewrite andb_true_iff, !negb_true_iff, Qltb_ge, Qgtb_le. split.
  - intros [H1 H2] [H3|H3]; lra.
  - intros Hn. split.
    + destruct (Qlt_le_dec (box_y box) 120) as [Hl|Hl]; [|lra].
      exfalso. apply Hn. by left.
    + destruct (Qlt_le_dec (ph - 80) (box_y box)) as [Hl|Hl]; [|lra].
      exfalso. apply Hn. by right.
Qed.

(** The size >= 3 branch, with the re-partition loop written as [runs]. *)
Lemma clean_cluster_large (c : list Box) (ph : Q) :
  3 ≤ length c →
  _clean_cluster c ph
  = let sorted := sort_by Qltb box_y c in
    match positive_gaps sorted with
    | [] => sorted
    | gaps =>
        match runs (y_break (median gaps * LINE_HEIGHT_MULTIPLIER)) sorted with
        | [] => []
        | s :: ss => max_len_from s ss
        end
    end.
Proof.
  intros Hlen.
  destruct c as [|b1 [|b2 [|b3 c]]]; simpl in Hlen; [lia..|].
  unfold _clean_cluster.
  set (sorted := sort_by Qltb box_y (b1 :: b2 :: b3 :: c)).
  cbv zeta.
  destruct (positive_gaps sorted) as [|g gaps] eqn:Hg; [done|].
  destruct sorted as [|first rest] eqn:Hs.
  { simpl in Hg. discriminate. }
  destruct (sub_cluster_loop_runs (median (g :: gaps) * LINE_HEIGHT_MULTIPLIER)
              rest first [] []) as (r & rs & Hr & Hloop).
  rewrite Hr. simpl in Hloop.
  destruct (sub_cluster_loop _ _ _ _ _) as [Ss C].
  by rewrite Hloop.
Qed.






Lemma elem_of_concat_sublist {A : Type} (ls : list (list A)) (r : list A) :
  r ∈ ls → r `sublist_of` concat ls.
Proof.
  intros (l1 & l2 & ->)%list_elem_of_split.
  rewrite concat_app, concat_cons.
  apply sublist_inserts_l, sublist_inserts_r. done.
Qed.

Lemma append_cleaned_nonempty (clusters : list (list Box)) (c : list Box) (ph : Q) :
  _clean_cluster c ph ≠ [] →
  append_cleaned clusters c ph = clusters ++ [_clean_cluster c ph].
Proof. unfold append_cleaned. by destruct (_clean_cluster c ph). Qed.

Lemma append_cleaned_empty (clusters : list (list Box)) (c : list Box) (ph : Q) :
  _clean_cluster c ph = [] → append_cleaned clusters c ph = clusters.
Proof. unfold append_cleaned. by intros ->. Qed.

Lemma clean_cluster_pair_eq (a b : Box) (ph : Q) :
  _clean_cluster [a; b] ph = List.filter (keep_box ph) [a; b].
Proof. unfold _clean_cluster. apply clean_pair_loop_filter. Qed.

(** C3.  Cluster cleaning for a cluster of exactly two boxes: a box is
    dropped if and only if its y lies in the header zone (y < 120) or the
    footer zone (y > page_height - 80); when both boxes lie in a zone the
    cleaned cluster is empty and adds no cluster, hence no region; a page
    whose only cluster is two boxes in the header zone yields no region. *)
Theorem clean_cluster_pair_drops_zone_boxes (a b : Box) (page_height : Q) :
  _clean_cluster [a; b] page_height
    = List.filter (keep_box page_height) [a; b]
  ∧ (∀ box, keep_box page_height box = false ↔ in_zone page_height box)
  ∧ (∀ box, box ∈ [a; b] →
       (box ∈ _clean_cluster [a; b] page_height ↔ ¬ in_zone page_height box))
  ∧ (in_zone page_height a → in_zone page_height b →
       _clean_cluster [a; b] page_height = []
       ∧ ∀ clusters, append_cleaned clusters [a; b] page_height = clusters)
  ∧ ((box_y a < 120)%Q → (box_y b < 120)%Q →
       ∀ page_width, (box_x b - box_x a <= 0.16 * page_width)%Q →
         _cluster_and_merge_boxes [a; b] page_width page_height = []).
Proof.
  assert (Hzone : ∀ box, keep_box page_height box = false ↔ in_zone page_height box).
  { intros box. pose proof (keep_box_zone page_height box) as Hk.
    destruct (keep_box page_height box); split; try done.
    - intros Hz. exfalso. by apply Hk.
    - intros _. unfold in_zone.
      destruct (Qlt_le_dec (box_y box) 120) as [|H1]; [by left|].
      destruct (Qlt_le_dec (page_height - 80) (box_y box)) as [|H2]; [by right|].
      assert (false = true) as Hf; [|done].
      apply Hk. intros [?|?]; lra. }
  assert (Hboth : in_zone page_height a → in_zone page_height b →
                  _clean_cluster [a; b] page_height = []).
  { intros Ha Hb. rewrite clean_cluster_pair_eq. simpl.
    apply Hzone in Ha, Hb. by rewrite Ha, Hb. }
  split_and!.
  - apply clean_cluster_pair_eq.
  - exact Hzone.
  - intros box Hin. rewrite clean_cluster_pair_eq, <- keep_box_zone.
    rewrite list_elem_of_In, filter_In, <- list_elem_of_In.
    split; [by intros [_ ?] | by intros ?; split].
  - intros Ha Hb. split; [by apply Hboth|].
    intros clusters. apply append_cleaned_empty. by apply Hboth.
  - intros Ha Hb pw Hgap.
    unfold _cluster_and_merge_boxes, cleaned_clusters. cbn [cluster_loop].
    assert (Qgtb (box_x b - box_x a) (pw * HORIZONTAL_THRESHOLD_RATIO) = false) as ->.
    { apply Qgtb_le. unfold HORIZONTAL_THRESHOLD_RATIO. lra. }
    change ([a] ++ [b]) with [a; b].
    rewrite append_cleaned_empty; [done|].
    apply Hboth; by left.
Qed.

(** C10.  Cluster cleaning returns a sub-multiset of its input boxes
    (possibly reordered, nothing invented or changed); only a cluster of
    exactly two boxes can be reduced to empty; for a cluster of one box or
    of at least three the result is non-empty and is appended to the
    clusters that are merged into regions. *)
Theorem clean_cluster_returns_subset (c : list Box) (page_height : Q) :
  _clean_cluster c page_height ⊆+ c
  ∧ (_clean_cluster c page_height = [] → c = [] ∨ length c = 2)
  ∧ (length c = 1 ∨ 3 ≤ length c →
       _clean_cluster c page_height ≠ []
       ∧ ∀ clusters,
           append_cleaned clusters c page_height
           = clusters ++ [_clean_cluster c page_height]).
Proof.
  assert (Hsub : _clean_cluster c page_height ⊆+ c).
  { destruct (decide (3 ≤ length c)) as [Hl|Hl].
    - rewrite clean_cluster_large by done. cbv zeta.
      pose proof (sort_by_perm box_y c) as Hp.
      destruct (positive_gaps _) as [|g gaps]; [by rewrite Hp|].
      set (jt := (median (g :: gaps) * LINE_HEIGHT_MULTIPLIER)%Q).
      pose proof (runs_concat (y_break jt) (sort_by Qltb box_y c)) as Hc.
      destruct (runs _ _) as [|s ss]; [apply submseteq_nil_l|].
      destruct (max_len_from_first ss s) as (k & Hk & _).
      rewrite <- Hp, <- Hc. apply sublist_submseteq, elem_of_concat_sublist.
      by eapply list_elem_of_lookup_2.
    - destruct c as [|b1 [|b2 [|b3 c]]]; [done|done| |simpl in Hl; lia].
      rewrite clean_cluster_pair_eq. simpl.
      destruct (keep_box page_height b1), (keep_box page_height b2).
      + done.
      + apply sublist_submseteq. by repeat constructor.
      + apply sublist_submseteq. by repeat constructor.
      + apply submseteq_nil_l. }
  assert (Hne : length c = 1 ∨ 3 ≤ length c → _clean_cluster c page_height ≠ []).
  { intros [Hl|Hl].
    - destruct c as [|b1 [|b2 c]]; simpl in Hl; try lia. done.
    - rewrite clean_cluster_large by done. cbv zeta.
      destruct (positive_gaps _) as [|g gaps].
      + intros Hnil. pose proof (sort_by_perm box_y c) as Hp.
        rewrite Hnil in Hp. apply Permutation_nil_l in Hp. subst. simpl in Hl. lia.
      + set (jt := (median (g :: gaps) * LINE_HEIGHT_MULTIPLIER)%Q).
        pose proof (runs_all_nonempty (y_break jt) (sort_by Qltb box_y c)) as Hall.
        pose proof (runs_concat (y_break jt) (sort_by Qltb box_y c)) as Hc.
        destruct (runs _ _) as [|s ss].
        * pose proof (sort_by_perm box_y c) as Hp. rewrite <- Hc in Hp.
          apply Permutation_nil_l in Hp. subst. simpl in Hl. lia.
        * destruct (max_len_from_first ss s) as (k & Hk & _).
          apply list_elem_of_lookup_2 in Hk.
          rewrite Forall_forall in Hall. by apply Hall. }
  split_and!; [done| |].
  - intros Hnil.
    destruct c as [|b1 [|b2 [|b3 c]]]; [by left| |by right|].
    + exfalso. apply Hne; [left; done|done].
    + exfalso. apply Hne; [right; simpl; lia|done].
  - intros Hl. split; [by apply Hne|]. intros clusters.
    apply append_cleaned_nonempty. by apply Hne.
Qed.


(* ===================================================================== *)
(** * Merging                                                              *)
(* ===================================================================== *)

Lemma min_from_le (l : list Q) :
  ∀ m, (min_from m l <= m)%Q ∧ ∀ v, v ∈ l → (min_from m l <= v)%Q.
Proof.
  induction l as [|u l IH]; intros m; simpl.
  - split; [lra|]. intros v Hv. by apply elem_of_nil in Hv.
  - destruct (IH (if Qltb u m then u else m)) as [Hm Hl].
    destruct (Qltb u m) eqn:E.
    + apply Qltb_lt in E. split; [lra|].
      intros v Hv. apply elem_of_cons in Hv as [->|Hv]; [done|by apply Hl].
    + apply Qltb_ge in E. split; [done|].
      intros v Hv. apply elem_of_cons in Hv as [->|Hv]; [lra|by apply Hl].
Qed.

Lemma max_from_ge (l : list Q) :
  ∀ m, (m <= max_from m l)%Q ∧ ∀ v, v ∈ l → (v <= max_from m l)%Q.
Proof.
  induction l as [|u l IH]; intros m; simpl.
  - split; [lra|]. intros v Hv. by apply elem_of_nil in Hv.
  - destruct (IH (if Qgtb u m then u else m)) as [Hm Hl].
    destruct (Qgtb u m) eqn:E.
    + apply Qgtb_gt in E. split; [lra|].
      intros v Hv. apply elem_of_cons in Hv as [->|Hv]; [done|by apply Hl].
    + apply Qgtb_le in E. split; [done|].
      intros v Hv. apply elem_of_cons in Hv as [->|Hv]; [lra|by apply Hl].
Qed.

Lemma py_min_le (l : list Q) (v : Q) : v ∈ l → (py_min l <= v)%Q.
Proof.
  destruct l as [|u l]; intros Hv; [by apply elem_of_nil in Hv|].
  simpl. destruct (min_from_le l u) as [Hm Hl].
  apply elem_of_cons in Hv as [->|Hv]; [done|by apply Hl].
Qed.

Lemma py_max_ge (l : list Q) (v : Q) : v ∈ l → (v <= py_max l)%Q.
Proof.
  destruct l as [|u l]; intros Hv; [by apply elem_of_nil in Hv|].
  simpl. destruct (max_from_ge l u) as [Hm Hl].
  apply elem_of_cons in Hv as [->|Hv]; [done|by apply Hl].
Qed.

Lemma merge_cluster_bounds (i : nat) (cluster : list Box) (b : Box) :
  b ∈ cluster → bounds (merge_cluster i cluster) b.
Proof.
  intros Hb. unfold bounds, merge_cluster. cbn.
  pose proof (py_min_le (map box_x cluster) (box_x b)
                (list_elem_of_fmap_2 box_x _ _ Hb)) as Hx.
  pose proof (py_min_le (map box_y cluster) (box_y b)
                (list_elem_of_fmap_2 box_y _ _ Hb)) as Hy.
  pose proof (py_max_ge (map (λ b, box_x b + box_w b)%Q cluster) _
                (list_elem_of_fmap_2 (λ b, box_x b + box_w b)%Q _ _ Hb)) as Hx1.
  pose proof (py_max_ge (map (λ b, box_y b + box_h b)%Q cluster) _
                (list_elem_of_fmap_2 (λ b, box_y b + box_h b)%Q _ _ Hb)) as Hy1.
  cbv beta in Hx1, Hy1. split_and!; [done|done|lra|lra].
Qed.

(** The merge loop makes one region per cluster, numbered from [i + 1]. *)
Lemma merge_loop_imap (clusters : list (list Box)) :
  ∀ (i : nat) (merged : list MergedBox),
    merge_loop i clusters merged
    = merged ++ imap (λ k c, merge_cluster (i + k) c) clusters.
Proof.
  induction clusters as [|c cl IH]; intros i merged; simpl.
  - by rewrite app_nil_r.
  - rewrite IH, <- app_assoc. simpl. rewrite Nat.add_0_r.
    do 2 f_equal. apply imap_ext. intros k x _. simpl. f_equal. lia.
Qed.

Lemma foldl_append_cleaned_nonempty (ph : Q) (cl : list (list Box)) :
  ∀ acc, Forall (λ c, c ≠ []) acc →
         Forall (λ c, c ≠ [])
                (foldl (λ acc c, append_cleaned acc c ph) acc cl).
Proof.
  induction cl as [|c cl IH]; intros acc Hacc; [done|].
  simpl. apply IH. unfold append_cleaned.
  destruct (_clean_cluster c ph) eqn:E; [done|].
  apply Forall_app. split; [done|]. by repeat constructor.
Qed.

(** The merge loop never sees an empty cluster. *)
Lemma cleaned_clusters_nonempty (boxes : list Box) (pw ph : Q) :
  Forall (λ c, c ≠ []) (cleaned_clusters boxes pw ph).
Proof.
  rewrite cleaned_clusters_raw. by apply foldl_append_cleaned_nonempty.
Qed.

Lemma cluster_and_merge_imap (boxes : list Box) (pw ph : Q) :
  _cluster_and_merge_boxes boxes pw ph
  = imap (λ k c, merge_cluster k c) (cleaned_clusters boxes pw ph).
Proof.
  unfold _cluster_and_merge_boxes. destruct boxes as [|b boxes]; [done|].
  by rewrite merge_loop_imap.
Qed.

Lemma filter_nonempty_Forall {A : Type} (l : list (list A)) :
  Forall (λ c, c ≠ []) (List.filter nonempty l).
Proof.
  induction l as [|c l IH]; simpl; [constructor|].
  destruct c; simpl; [done|]. by constructor.
Qed.

(** With rounding too the merge loop never sees an empty cluster. *)
Lemma cleaned_clusters_fl_nonempty (fl : Q → Q) (boxes : list Box)
    (pw ph : Q) :
  Forall (λ c, c ≠ []) (cleaned_clusters_fl fl boxes pw ph).
Proof. rewrite cleaned_clusters_fl_raw. apply filter_nonempty_Forall. Qed.

Lemma merge_loop_fl_imap (fl : Q → Q) (clusters : list (list Box)) :
  ∀ (i : nat) (merged : list MergedBox),
    merge_loop_fl fl i clusters merged
    = merged ++ imap (λ k c, merge_cluster_fl fl (i + k) c) clusters.
Proof.
  induction clusters as [|c cl IH]; intros i merged; simpl.
  - by rewrite app_nil_r.
  - rewrite IH, <- app_assoc. simpl. rewrite Nat.add_0_r.
    do 2 f_equal. apply imap_ext. intros k x _. simpl. f_equal. lia.
Qed.

Lemma cluster_and_merge_fl_imap (fl : Q → Q) (boxes : list Box) (pw ph : Q) :
  _cluster_and_merge_boxes_fl fl boxes pw ph
  = imap (λ k c, merge_cluster_fl fl k c)
         (cleaned_clusters_fl fl boxes pw ph).
Proof.
  unfold _cluster_and_merge_boxes_fl. destruct boxes as [|b boxes]; [done|].
  by rewrite merge_loop_fl_imap.
Qed.

(** What the merge step computes for one cluster. *)
Lemma merge_cluster_fl_edges (fl : Q → Q) (i : nat) (cluster : list Box) :
  let region := merge_cluster_fl fl i cluster in
  merged_w region
    = fl (py_max (right_edges_fl fl cluster) - merged_x region)%Q
  ∧ merged_h region
    = fl (py_max (bottom_edges_fl fl cluster) - merged_y region)%Q
  ∧ ∀ b, b ∈ cluster →
      (merged_x region <= box_x b)%Q
      ∧ (merged_y region <= box_y b)%Q
      ∧ (fl (box_x b + box_w b) <= py_max (right_edges_fl fl cluster))%Q
      ∧ (fl (box_y b + box_h b) <= py_max (bottom_edges_fl fl cluster))%Q.
Proof.
  intros region. split; [done|]. split; [done|]. intros b Hb.
  split_and!.
  - apply py_min_le. by apply (list_elem_of_fmap_2 box_x).
  - apply py_min_le. by apply (list_elem_of_fmap_2 box_y).
  - apply py_max_ge.
    by apply (list_elem_of_fmap_2 (λ b, fl_add fl (box_x b) (box_w b))).
  - apply py_max_ge.
    by apply (list_elem_of_fmap_2 (λ b, fl_add fl (box_y b) (box_h b))).
Qed.

Lemma merge_cluster_fl_exact_bounds (fl : Q → Q) (i : nat)
    (cluster : list Box) (b : Box) :
  exact_arithmetic fl → b ∈ cluster → bounds (merge_cluster_fl fl i cluster) b.
Proof.
  intros Hfl Hb.
  destruct (merge_cluster_fl_edges fl i cluster) as (Hw & Hh & Hall).
  destruct (Hall b Hb) as (Hx & Hy & Hx1 & Hy1).
  unfold bounds. rewrite Hw, Hh.
  pose proof (Hfl (box_x b + box_w b)%Q) as Ex.
  pose proof (Hfl (box_y b + box_h b)%Q) as Ey.
  pose proof (Hfl (py_max (right_edges_fl fl cluster)
                   - merged_x (merge_cluster_fl fl i cluster))%Q) as Ew.
  pose proof (Hfl (py_max (bottom_edges_fl fl cluster)
                   - merged_y (merge_cluster_fl fl i cluster))%Q) as Eh.
  split_and!; [done|done|lra|lra].
Qed.

(** C4.  Every region comes from a non-empty cleaned cluster, and for
    every rounding [fl] of the float operations: region.x <= b.x and
    region.y <= b.y for every box b of the cluster; region.w is the
    computed difference max_x1 - region.x and region.h the computed
    difference max_y1 - region.y, where max_x1 and max_y1 are the
    largest computed right edge b.x + b.w and bottom edge b.y + b.h of
    the cluster's boxes, so that they bound the computed edge of every
    box.  Without rounding, region.x + region.w >= b.x + b.w and
    region.y + region.h >= b.y + b.h follow. *)
Theorem merged_region_bounds_computed_edges
    (fl : Q → Q) (boxes : list Box) (page_width page_height : Q) :
  Forall2 (λ cluster region,
             cluster ≠ []
             ∧ merged_w region
               = fl (py_max (right_edges_fl fl cluster) - merged_x region)%Q
             ∧ merged_h region
               = fl (py_max (bottom_edges_fl fl cluster) - merged_y region)%Q
             ∧ (∀ b, b ∈ cluster →
                  (merged_x region <= box_x b)%Q
                  ∧ (merged_y region <= box_y b)%Q
                  ∧ (fl (box_x b + box_w b)
                     <= py_max (right_edges_fl fl cluster))%Q
                  ∧ (fl (box_y b + box_h b)
                     <= py_max (bottom_edges_fl fl cluster))%Q)
             ∧ (exact_arithmetic fl → ∀ b, b ∈ cluster → bounds region b))
          (cleaned_clusters_fl fl boxes page_width page_height)
          (_cluster_and_merge_boxes_fl fl boxes page_width page_height).
Proof.
  rewrite cluster_and_merge_fl_imap.
  pose proof (cleaned_clusters_fl_nonempty fl boxes page_width page_height)
    as Hne.
  apply Forall2_same_length_lookup. split; [by rewrite length_imap|].
  intros k cluster region Hc Hr.
  rewrite list_lookup_imap, Hc in Hr. injection Hr as <-.
  split; [by apply (Forall_lookup_1 _ _ _ _ Hne Hc)|].
  destruct (merge_cluster_fl_edges fl k cluster) as (Hw & Hh & Hall).
  split_and!; [done|done|done|].
  intros Hfl b Hb. by apply merge_cluster_fl_exact_bounds.
Qed.

(* ===================================================================== *)
(** * Planning: the padded rectangle                                       *)
(* ===================================================================== *)

Section Planning.
Context `{Collaborators}.

Lemma page_coords_tuples (page_dimensions : gmap Z PageDim) (page_num : Z)
    (boxes : list Box) :
  page_coords page_dimensions page_num boxes
  = map (coords_tuple page_num)
        (let page_dim :=
           default (mkPageDim 595 842) (page_dimensions !! page_num) in
         _cluster_and_merge_boxes boxes (width page_dim) (height page_dim)).
Proof. reflexivity. Qed.

(** C5.  The rectangle drawn for a merged region is the region's
    rectangle (x0, y0, x1, y1) = (x, y, x + w, y + h) expanded by the fixed
    padding of 7 on each side, (x0 - 7, y0 - 7, x1 + 7, y1 + 7); it
    contains the region; and it is the rectangle the draw loop hands to
    [draw_rect] when the page index is within the document. *)
Theorem final_rect_is_region_padded (page_num : Z) (region : MergedBox)
    (fill_color : Z * Z * Z) (coords : list (Z * Q * Q * Q * Q)) (doc : Doc) :
  let c := coords_tuple page_num region in
  final_rect c
    = ((merged_x region - 7)%Q, (merged_y region - 7)%Q,
       (merged_x region + merged_w region + 7)%Q,
       (merged_y region + merged_h region + 7)%Q)
  ∧ rect_contains (final_rect c) (merged_rect region)
  ∧ draw_loop fill_color (c :: coords) doc
    = if (page_num - 1 <? doc_len doc)%Z
      then match page_draw_rect doc (page_num - 1) (final_rect c) fill_color with
           | Ok doc' => draw_loop fill_color coords doc'
           | Raise e => Raise e
           end
      else draw_loop fill_color coords doc.
Proof.
  split_and!; [reflexivity| |reflexivity].
  unfold rect_contains, final_rect, coords_tuple, merged_rect, Rect_add,
    DELETION_PADDING.
  split_and!; lra.
Qed.
End Planning.

(* ===================================================================== *)
(** * The jobs: which exceptions are contained                             *)
(* ===================================================================== *)

Section JobFacts.
Context `{Collaborators}.

Lemma read_file_world (p : string) (w : World) : (read_file p w).2 = w.
Proof. unfold read_file. by destruct (files w !! p) as [[]|]. Qed.

Lemma ET_parse_world (p : string) (w : World) : (ET_parse p w).2 = w.
Proof.
  unfold ET_parse, bind. pose proof (read_file_world p w) as Hr.
  destruct (read_file p w) as [[data|e] w']; simpl in Hr; subst; [|done].
  by destruct (xml_fromstring data).
Qed.

(** [_extract_raw_reference_boxes] returns a mapping whatever happens,
    and leaves the world as it is. *)
Lemma extract_total (self : ReferenceRedactor) (w : World) :
  ∃ m, _extract_raw_reference_boxes self w = (Ok m, w).
Proof.
  unfold _extract_raw_reference_boxes, try_except, bind.
  pose proof (ET_parse_world (xml_path self) w) as Hw.
  destruct (ET_parse (xml_path self) w) as [[root|e] w']; simpl in Hw; subst.
  - destruct (boxes_of_root root); eexists; reflexivity.
  - eexists; reflexivity.
Qed.

Lemma page_dimensions_total (self : ReferenceRedactor) (w : World) :
  ∃ m, _get_page_dimensions self w = (Ok m, w).
Proof.
  unfold _get_page_dimensions, try_except, bind.
  pose proof (ET_parse_world (xml_path self) w) as Hw.
  destruct (ET_parse (xml_path self) w) as [[root|e] w']; simpl in Hw; subst;
    eexists; reflexivity.
Qed.

Lemma calculate_total (self : ReferenceRedactor) (w : World) :
  ∃ self',
    _calculate_final_coordinates self w = (Ok self', w)
    ∧ xml_path self' = xml_path self
    ∧ pdf_path self' = pdf_path self
    ∧ output_pdf_path self' = output_pdf_path self.
Proof.
  unfold _calculate_final_coordinates, bind.
  destruct (extract_total self w) as [m ->].
  destruct (size m =? 0)%nat.
  - by exists self.
  - destruct (page_dimensions_total self w) as [d ->].
    eexists. split; [reflexivity|done].
Qed.

(** The drawing path and the extraction job catch every exception. *)
Lemma draw_rects_and_save_total (self : ReferenceRedactor) (w : World) :
  ∃ b msg w', _draw_rects_and_save self w = (Ok (b, msg), w').
Proof.
  unfold _draw_rects_and_save, try_except.
  match goal with |- context [match ?m w with _ => _ end] =>
    destruct (m w) as [[[b msg]|e] w'] end; by repeat eexists.
Qed.

Lemma get_raw_xml_from_grobid_total (pdf out url : string) (w : World) :
  ∃ b msg w', _get_raw_xml_from_grobid pdf out url w = (Ok (b, msg), w').
Proof.
  unfold _get_raw_xml_from_grobid, try_except.
  match goal with |- context [match ?m w with _ => _ end] =>
    destruct (m w) as [[[b msg]|e] w'] end; [by repeat eexists|].
  destruct (exn_cls e); by repeat eexists.
Qed.

(** An exception leaves [process] only from the copy of the no-rectangle
    branch. *)
Lemma process_raises_only_from_copy (self : ReferenceRedactor) (w w' : World)
    (e : exn) :
  process self w = (Raise e, w') →
  ∃ self',
    _calculate_final_coordinates self w = (Ok self', w)
    ∧ final_pymupdf_coords self' = []
    ∧ shutil_copy (pdf_path self) (output_pdf_path self) w = (Raise e, w').
Proof.
  unfold process.
  destruct (os_path_exists w (pdf_path self)); simpl; [|done].
  unfold bind.
  destruct (calculate_total self w) as (self' & -> & _ & Hpdf & Hout).
  destruct (final_pymupdf_coords self') as [|c cs] eqn:Hc.
  - rewrite Hpdf, Hout.
    destruct (shutil_copy (pdf_path self) (output_pdf_path self) w)
      as [[[]|e'] w''] eqn:Hcopy; [done|].
    intros [= -> ->]. by exists self'.
  - destruct (draw_rects_and_save_total self' w) as (b & msg & w'' & ->). done.
Qed.

(** C7.  When the computed list of rectangles is empty, the redaction
    job copies the source PDF to the output path, so that the output file
    has the very bytes of the source, and returns success with the
    message that no references were found.  The source is a regular file
    and the output path a writable place other than the source and not a
    directory: the conditions under which the copy itself goes through. *)
Theorem process_copies_source_when_no_rects
    (self self' : ReferenceRedactor) (w w1 : World) (data : string) :
  _calculate_final_coordinates self w = (Ok self', w1) →
  final_pymupdf_coords self' = [] →
  files w !! pdf_path self = Some (File data) →
  files w !! output_pdf_path self ≠ Some Dir →
  pdf_path self ≠ output_pdf_path self →
  writable w (output_pdf_path self) = true →
  ∃ w',
    process self w
      = (Ok (true, "No references found; original file copied."), w')
    ∧ files w' !! output_pdf_path self = Some (File data)
    ∧ files w' !! pdf_path self = Some (File data)
    ∧ ∀ p, p ≠ output_pdf_path self → files w' !! p = files w !! p.
Proof.
  intros Hcalc Hnil Hsrc Hdst Hneq Hwr.
  destruct (calculate_total self w) as (s & Hs & _ & Hpdf & Hout).
  rewrite Hs in Hcalc. injection Hcalc as <- <-.
  exists (mkWorld (<[output_pdf_path self := File data]> (files w))
                  (writable w) (service w)).
  split_and!.
  - unfold process, os_path_exists. rewrite Hsrc. simpl.
    unfold bind at 1. rewrite Hs, Hnil, Hpdf, Hout.
    unfold bind, shutil_copy, bind, read_file, write_file, ret.
    destruct (files w !! output_pdf_path self) as [[d|]|] eqn:Ho; [|done|].
    + rewrite bool_decide_eq_false_2 by done. simpl.
      by rewrite Hsrc, Ho, Hwr.
    + rewrite bool_decide_eq_false_2 by done. simpl.
      by rewrite Hsrc, Ho, Hwr.
  - simpl. apply lookup_insert_eq.
  - simpl. by rewrite lookup_insert_ne.
  - intros p Hp. simpl. by rewrite lookup_insert_ne.
Qed.
End JobFacts.

(* ===================================================================== *)
(** * Coordinate parsing                                                   *)
(* ===================================================================== *)

Section Parsing.
Context `{Collaborators}.

(** A group that does not have five fields is skipped. *)
Lemma parse_group_wrong_count (box : string) (m : gmap Z (list Box)) :
  length (split "," box) ≠ 5 → parse_group box m = Some m.
Proof.
  intros Hn. unfold parse_group.
  destruct (Nat.eqb_spec (length (split "," box)) 5); done.
Qed.

(** A five-field group with a field that [int] or [float] rejects makes
    the whole loop raise. *)
Lemma parse_group_malformed (box : string) (m : gmap Z (list Box)) :
  length (split "," box) = 5 →
  py_int (nth 0 (split "," box) EmptyString) = None
  ∨ (∃ i, 1 ≤ i ≤ 4 ∧ py_float (nth i (split "," box) EmptyString) = None) →
  parse_group box m = None.
Proof.
  intros Hn Hbad. unfold parse_group. rewrite Hn. simpl.
  destruct Hbad as [Hi0|(i & Hi & Hf)]; [by rewrite Hi0|].
  destruct (py_int _); [simpl|done].
  assert (i = 1 ∨ i = 2 ∨ i = 3 ∨ i = 4) as [-> | [-> | [-> | -> ]]] by lia.
  all: repeat (match goal with
               | |- context [py_float ?s] =>
                   destruct (py_float s) eqn:?; simpl
               end); congruence.
Qed.

Lemma parse_groups_None (groups : list string) (box : string)
    (m : gmap Z (list Box)) :
  box ∈ groups → (∀ m', parse_group box m' = None) →
  parse_groups groups m = None.
Proof.
  revert m. induction groups as [|g groups IH]; intros m Hin Hbad.
  - by apply elem_of_nil in Hin.
  - simpl. apply elem_of_cons in Hin as [<-|Hin].
    + by rewrite Hbad.
    + destruct (parse_group g m); [simpl; by apply IH|done].
Qed.

Lemma parse_items_None (items : list Element) (item : Element)
    (m : gmap Z (list Box)) :
  item ∈ items → (∀ m', parse_item item m' = None) →
  parse_items items m = None.
Proof.
  revert m. induction items as [|it items IH]; intros m Hin Hbad.
  - by apply elem_of_nil in Hin.
  - simpl. apply elem_of_cons in Hin as [<-|Hin].
    + by rewrite Hbad.
    + destruct (parse_item it m); [simpl; by apply IH|done].
Qed.

(** One malformed five-field group anywhere empties the whole result. *)
Lemma malformed_group_empties_result (self : ReferenceRedactor) (w : World)
    (root item : Element) (coords_str box : string) :
  ET_parse (xml_path self) w = (Ok root, w) →
  item ∈ select_ref_items root →
  elem_get "coords" item = Some coords_str →
  box ∈ split ";" coords_str →
  (∀ m, parse_group box m = None) →
  _extract_raw_reference_boxes self w = (Ok ∅, w).
Proof.
  intros Hroot Hitem Hget Hbox Hbad.
  unfold _extract_raw_reference_boxes, try_except, bind. rewrite Hroot.
  assert (boxes_of_root root = None) as ->; [|done].
  unfold boxes_of_root.
  destruct (select_ref_items root) as [|i0 items] eqn:Hsel.
  { by apply elem_of_nil in Hitem. }
  apply (parse_items_None _ item); [done|].
  intros m'. unfold parse_item. rewrite Hget.
  destruct (String.eqb_spec coords_str EmptyString) as [->|_].
  - simpl in Hbox. apply list_elem_of_singleton in Hbox. subst.
    specialize (Hbad m'). by rewrite parse_group_wrong_count in Hbad.
  - by apply (parse_groups_None _ box).
Qed.

(** The keys of the result are page fields of five-field groups. *)
Lemma parse_group_keys (P : Z → Prop) (box : string)
    (m m' : gmap Z (list Box)) :
  (∀ p, length (split "," box) = 5 →
        py_int (nth 0 (split "," box) EmptyString) = Some p → P p) →
  map_Forall (λ p _, P p) m →
  parse_group box m = Some m' →
  map_Forall (λ p _, P p) m'.
Proof.
  intros Hp Hm. unfold parse_group.
  destruct (Nat.eqb_spec (length (split "," box)) 5) as [Hn|Hn];
    [|by intros [= <-]].
  destruct (py_int _) as [p|] eqn:Hint; [simpl|done].
  intros Hg. simplify_option_eq. unfold dict_append.
  apply map_Forall_insert_2; [by apply Hp|done].
Qed.

Lemma parse_groups_keys (P : Z → Prop) (groups : list string) :
  ∀ m m' : gmap Z (list Box),
    (∀ box p, box ∈ groups → length (split "," box) = 5 →
              py_int (nth 0 (split "," box) EmptyString) = Some p → P p) →
    map_Forall (λ p _, P p) m →
    parse_groups groups m = Some m' →
    map_Forall (λ p _, P p) m'.
Proof.
  induction groups as [|g groups IH]; intros m m' Hp Hm; simpl.
  - by intros [= <-].
  - destruct (parse_group g m) as [m1|] eqn:Hg; [simpl|done].
    apply IH.
    + intros box p Hin. apply Hp. by right.
    + eapply parse_group_keys; [|exact Hm|exact Hg].
      intros p. apply Hp. by left.
Qed.

Lemma parse_items_keys (P : Z → Prop) (items : list Element) :
  ∀ m m' : gmap Z (list Box),
    (∀ item coords_str box p,
        item ∈ items → elem_get "coords" item = Some coords_str →
        box ∈ split ";" coords_str → length (split "," box) = 5 →
        py_int (nth 0 (split "," box) EmptyString) = Some p → P p) →
    map_Forall (λ p _, P p) m →
    parse_items items m = Some m' →
    map_Forall (λ p _, P p) m'.
Proof.
  induction items as [|it items IH]; intros m m' Hp Hm; simpl.
  - by intros [= <-].
  - destruct (parse_item it m) as [m1|] eqn:Hi; [simpl|done].
    apply IH.
    + intros item coords_str box p Hin. apply Hp. by right.
    + unfold parse_item in Hi.
      destruct (elem_get "coords" it) as [cs|] eqn:Hget; [|by simplify_eq].
      destruct (String.eqb cs EmptyString); [by simplify_eq|].
      eapply parse_groups_keys; [|exact Hm|exact Hi].
      intros box p Hin. eapply Hp; [by left|done|done].
Qed.

(** C9, amended.  The page of every raw box is the integer that [int]
    reads from the first field of a five-field group of the markup; the
    parser does not check it.  Hence when every such page field is at
    least 1, every raw box has page >= 1. *)
Theorem raw_box_pages_are_page_fields (self : ReferenceRedactor) (w : World) :
  (∀ root item coords_str box p,
      ET_parse (xml_path self) w = (Ok root, w) →
      item ∈ select_ref_items root →
      elem_get "coords" item = Some coords_str →
      box ∈ split ";" coords_str → length (split "," box) = 5 →
      py_int (nth 0 (split "," box) EmptyString) = Some p → (1 ≤ p)%Z) →
  ∀ boxes_by_page w' p boxes,
    _extract_raw_reference_boxes self w = (Ok boxes_by_page, w') →
    boxes_by_page !! p = Some boxes → (1 ≤ p)%Z.
Proof.
  intros Hp m w' p boxes. unfold _extract_raw_reference_boxes, try_except, bind.
  pose proof (ET_parse_world (xml_path self) w) as Hw.
  destruct (ET_parse (xml_path self) w) as [[root|e] w1] eqn:Hroot;
    simpl in Hw; subst w1.
  - destruct (boxes_of_root root) as [m1|] eqn:Hb; simpl.
    + intros [= <- <-] Hl. unfold boxes_of_root in Hb.
      assert (map_Forall (λ p _, (1 ≤ p)%Z) m1) as Hall; [|by eapply Hall].
      destruct (select_ref_items root) as [|i0 items] eqn:Hsel.
      * injection Hb as <-. apply map_Forall_empty.
      * eapply (parse_items_keys (λ p, (1 ≤ p)%Z)); [|apply map_Forall_empty|exact Hb].
        intros item cs box q Hin. apply (Hp root); [done|]. by rewrite Hsel.
    + intros [= <- <-] Hl. by rewrite lookup_empty in Hl.
  - simpl. intros [= <- <-] Hl. by rewrite lookup_empty in Hl.
Qed.
End Parsing.

(* ===================================================================== *)
(** * Worked examples                                                      *)
(* ===================================================================== *)

(** With binary64 rounding the clusters of [ex_page] change between the
    second and the third box, where the left edge moves right by
    250 > 0.16 x 595, and not between the fourth and the fifth, where it
    moves left: [binary64] keeps the order and keeps 0. *)
Lemma signed_gap_example :
  cluster_of (raw_clusters_fl binary64 ex_page 595) 1
  ≠ cluster_of (raw_clusters_fl binary64 ex_page 595) 2
  ∧ cluster_of (raw_clusters_fl binary64 ex_page 595) 3
    = cluster_of (raw_clusters_fl binary64 ex_page 595) 4.
Proof.
  pose proof (horizontal_clustering_splits_iff_signed_gap_exceeds
                binary64 ex_page 595 842) as (_ & _ & Hrule).
  destruct (Hrule 1%nat (ex_box 50 212) (ex_box 300 300) eq_refl eq_refl)
    as (Hsplit & _).
  destruct (Hrule 3%nat (ex_box 310 312) (ex_box 20 324) eq_refl eq_refl)
    as (_ & _ & _ & Hleft).
  split; [apply Hsplit; by vm_compute|].
  apply Hleft; [exact binary64_monotone|by vm_compute..].
Defined.

(** C1, as stated, fails for a jump to the left: the left edges of
    the two boxes of [ex_leftward_jump] differ by 290 > 0.16 x 595, and
    the two boxes are in the same cluster and give one region, with
    binary64 rounding and without rounding. *)
Lemma leftward_jump_shares_cluster :
  (0.16 * 595 < Qabs (box_x (ex_box 20 324) - box_x (ex_box 310 312)))%Q
  ∧ (threshold_fl binary64 595
     < Qabs (box_x (ex_box 20 324) - box_x (ex_box 310 312)))%Q
  ∧ ex_leftward_jump !! 0%nat = Some (ex_box 310 312)
  ∧ ex_leftward_jump !! 1%nat = Some (ex_box 20 324)
  ∧ cluster_of (raw_clusters_fl binary64 ex_leftward_jump 595) 0
    = cluster_of (raw_clusters_fl binary64 ex_leftward_jump 595) 1
  ∧ length (_cluster_and_merge_boxes_fl binary64 ex_leftward_jump 595 842)
    = 1%nat
  ∧ length (_cluster_and_merge_boxes ex_leftward_jump 595 842) = 1%nat.
Proof. split_and!; by vm_compute. Qed.

(** At the threshold the rounding decides: 595 x 0.16 is computed as the
    float nearest to 95.2, so a box at that left edge after one at 0
    stays in the cluster; without rounding 0.16 x 595 is just below that
    float and the two boxes are separated. *)
Example rounded_threshold_example :
  cluster_of (raw_clusters_fl binary64 ex_at_threshold 595) 1 = Some 0%nat
  ∧ cluster_of (raw_clusters ex_at_threshold 595) 1 = Some 1%nat.
Proof. split; by vm_compute. Qed.

(** Without rounding every region of [ex_page] bounds the boxes of its
    cluster. *)
Lemma bounds_exact_example :
  Forall2 (λ cluster region, ∀ b, b ∈ cluster → bounds region b)
          (cleaned_clusters_fl (λ q, q) ex_page 595 842)
          (_cluster_and_merge_boxes_fl (λ q, q) ex_page 595 842).
Proof.
  eapply Forall2_impl;
    [apply (merged_region_bounds_computed_edges (λ q, q) ex_page 595 842)|].
  intros cluster region (_ & _ & _ & _ & Hex). apply Hex.
  intros q. reflexivity.
Defined.

(** C4, as stated, fails by a rounding error: the region of
    [ex_rounding_pair] has x + w below the right edge x + w of the second
    box, as a sum of the stored numbers and as the sum that
    [_calculate_final_coordinates] computes. *)
Lemma merged_region_falls_short_of_box :
  ∃ region b,
    cleaned_clusters_fl binary64 ex_rounding_pair 595 842
    = [ex_rounding_pair]
    ∧ _cluster_and_merge_boxes_fl binary64 ex_rounding_pair 595 842
      = [region]
    ∧ b ∈ ex_rounding_pair
    ∧ (merged_x region + merged_w region < box_x b + box_w b)%Q
    ∧ (fl_add binary64 (merged_x region) (merged_w region)
       < fl_add binary64 (box_x b) (box_w b))%Q.
Proof.
  eexists _, (mkBox (binary64 2.5) 312 (binary64 7.9) 10).
  split; [by vm_compute|].
  split; [vm_compute; reflexivity|].
  split; [right; left|]. split; by vm_compute.
Qed.

(** The stray box of [ex_column] is dropped: one region, from the five
    boxes. *)
Example clean_cluster_column :
  _clean_cluster ex_column 842 = take 5 ex_column
  ∧ _cluster_and_merge_boxes ex_column 595 842
    = [mkMerged 1 50 200 100 58].
Proof. split; reflexivity. Qed.


Lemma header_pair_example :
  _cluster_and_merge_boxes ex_header_pair 595 842 = [].
Proof.
  apply (proj2 (proj2 (proj2 (proj2
           (clean_cluster_pair_drops_zone_boxes
              (ex_box 50 30) (ex_box 60 42) 842))))).
  - reflexivity.
  - reflexivity.
  - unfold Qle; simpl; lia.
Defined.

Lemma singleton_survives_example :
  _clean_cluster [ex_box 50 30] 842 ≠ [].
Proof.
  apply (proj2 (proj2 (clean_cluster_returns_subset [ex_box 50 30] 842))).
  left. reflexivity.
Defined.

Lemma copy_example :
  ∃ w',
    @process (with_markup []) ex_redactor (ex_world true)
      = (Ok (true, "No references found; original file copied."), w')
    ∧ files w' !! "out/a_cleaned.pdf" = Some (File "%PDF").
Proof.
  destruct (@process_copies_source_when_no_rects (with_markup [])
              ex_redactor ex_redactor (ex_world true) (ex_world true) "%PDF")
    as (w' & Hp & Ho & _).
  - reflexivity.
  - reflexivity.
  - reflexivity.
  - vm_compute. discriminate.
  - discriminate.
  - reflexivity.
  - exists w'. split; [exact Hp|exact Ho].
Defined.

(** C9, as stated, fails: the group "0,10,20,30,40" is parsed into a raw
    box on page 0, and 0 is not at least 1. *)
Lemma raw_box_page_can_be_zero :
  ∃ (boxes_by_page : gmap Z (list Box)) (boxes : list Box),
    @_extract_raw_reference_boxes (with_markup [bibl "0,10,20,30,40"])
        ex_redactor (ex_world true)
    = (Ok boxes_by_page, ex_world true)
    ∧ boxes_by_page !! 0%Z = Some boxes
    ∧ ¬ (1 ≤ 0)%Z.
Proof.
  exists {[0%Z := [mkBox 10 20 30 40]]}, [mkBox 10 20 30 40].
  split_and!; [reflexivity|reflexivity|lia].
Qed.

Lemma raw_box_pages_example :
  match (@_extract_raw_reference_boxes (with_markup [bibl "1,10,20,30,40;x"])
           ex_redactor (ex_world true)).1 with
  | Ok boxes_by_page => map_Forall (λ p _, (1 ≤ p)%Z) boxes_by_page
  | Raise _ => False
  end.
Proof.
  assert (Hrun :
    @_extract_raw_reference_boxes (with_markup [bibl "1,10,20,30,40;x"])
        ex_redactor (ex_world true)
    = (Ok {[1%Z := [mkBox 10 20 30 40]]}, ex_world true)) by reflexivity.
  rewrite Hrun. cbn [fst]. intros p boxes Hlook.
  apply (@raw_box_pages_are_page_fields (with_markup [bibl "1,10,20,30,40;x"])
           ex_redactor (ex_world true))
    with (boxes_by_page := {[1%Z := [mkBox 10 20 30 40]]})
         (w' := ex_world true) (boxes := boxes); [|exact Hrun|exact Hlook].
  intros root item coords_str box q Hroot Hitem Hget Hbox Hlen Hint.
  injection Hroot as <-.
  vm_compute in Hitem. apply list_elem_of_singleton in Hitem. subst item.
  injection Hget as <-.
  vm_compute in Hbox.
  apply elem_of_cons in Hbox as [->|Hbox].
  - vm_compute in Hint. injection Hint as <-. lia.
  - apply list_elem_of_singleton in Hbox. subst box. vm_compute in Hlen. lia.
Defined.

(** C6 at the failing input.  The group "1,10,20,30,40" alone is parsed
    into a raw box on page 1.  With the malformed group "1,x,20,30,40"
    next to it, the [ValueError] of [float] reaches the outer handler:
    the result is the empty mapping, the conforming group is lost too,
    and the job reports that no references were found. *)
Theorem malformed_group_discards_conforming_boxes :
  (@_extract_raw_reference_boxes (with_markup [bibl "1,10,20,30,40"])
     ex_redactor (ex_world true)).1
    = Ok {[1%Z := [mkBox 10 20 30 40]]}
  ∧ (@_extract_raw_reference_boxes
       (with_markup [bibl "1,10,20,30,40;1,x,20,30,40"])
       ex_redactor (ex_world true)).1
    = Ok ∅
  ∧ (@process (with_markup [bibl "1,10,20,30,40;1,x,20,30,40"])
       ex_redactor (ex_world true)).1
    = Ok (true, "No references found; original file copied.").
Proof. split_and!; reflexivity. Qed.

(** C8 at the failing input.  No rectangle is planned and the output
    path cannot be written: the exception of [shutil.copy] leaves
    [process], which returns no (success, message) pair. *)
Theorem process_copy_exception_escapes :
  @process (with_markup []) ex_redactor (ex_world false)
  = (Raise (OSError "out/a_cleaned.pdf"), ex_world false).
Proof. reflexivity. Qed.

(* ===================================================================== *)
(** * More on runs                                                         *)
(* ===================================================================== *)

Section RunsMore.
Context {A : Type} (brk : A → A → bool).




Lemma runs_length_le (l : list A) : length (runs brk l) ≤ length l.
Proof.
  induction l as [|c l IH]; [done|].
  destruct l as [|d l]; [simpl; lia|].
  rewrite runs_cons2.
  destruct (runs brk (d :: l)) as [|r rs]; [simpl; lia|].
  destruct (brk c d); simpl in *; lia.
Qed.
End RunsMore.

(* ===================================================================== *)
(** * More on cleaning                                                     *)
(* ===================================================================== *)



(* ===================================================================== *)
(** * More on merging                                                      *)
(* ===================================================================== *)

Lemma foldl_append_cleaned_length (ph : Q) (cl : list (list Box)) :
  ∀ acc, length (foldl (λ acc c, append_cleaned acc c ph) acc cl)
         ≤ length acc + length cl.
Proof.
  induction cl as [|c cl IH]; intros acc; simpl; [lia|].
  etransitivity; [apply IH|]. unfold append_cleaned.
  destruct (_clean_cluster c ph); rewrite ?length_app; simpl; lia.
Qed.

(** X3.  Consolidation makes at most one region per raw cluster, hence never
    more regions than boxes, and the regions are numbered 1, 2, ... in
    the order of their clusters. *)
Theorem merged_regions_counted_and_numbered
    (boxes : list Box) (page_width page_height : Q) :
  let regions := _cluster_and_merge_boxes boxes page_width page_height in
  length regions = length (cleaned_clusters boxes page_width page_height)
  ∧ length regions ≤ length (raw_clusters boxes page_width)
  ∧ length (raw_clusters boxes page_width) ≤ length boxes
  ∧ ∀ (k : nat) (region : MergedBox),
      regions !! k = Some region → cluster_id region = k + 1.
Proof.
  intros regions. unfold regions. rewrite cluster_and_merge_imap.
  split_and!.
  - by rewrite length_imap.
  - rewrite length_imap, cleaned_clusters_raw.
    apply (foldl_append_cleaned_length page_height _ []).
  - apply runs_length_le.
  - intros k region Hk. rewrite list_lookup_imap in Hk.
    destruct (cleaned_clusters boxes page_width page_height !! k);
      simpl in Hk; [|done].
    by injection Hk as <-.
Qed.

Lemma min_from_attained (l : list Q) :
  ∀ m, min_from m l ∈ m :: l.
Proof.
  induction l as [|u l IH]; intros m; simpl; [by left|].
  specialize (IH (if Qltb u m then u else m)).
  destruct (Qltb u m); [by right|].
  apply elem_of_cons in IH as [Heq|IH]; [rewrite Heq; by left|by do 2 right].
Qed.

Lemma max_from_attained (l : list Q) :
  ∀ m, max_from m l ∈ m :: l.
Proof.
  induction l as [|u l IH]; intros m; simpl; [by left|].
  specialize (IH (if Qgtb u m then u else m)).
  destruct (Qgtb u m); [by right|].
  apply elem_of_cons in IH as [Heq|IH]; [rewrite Heq; by left|by do 2 right].
Qed.

Lemma py_min_attained (l : list Q) : l ≠ [] → py_min l ∈ l.
Proof. destruct l as [|u l]; [done|]. intros _. apply min_from_attained. Qed.

Lemma py_max_attained (l : list Q) : l ≠ [] → py_max l ∈ l.
Proof. destruct l as [|u l]; [done|]. intros _. apply max_from_attained. Qed.

(** X4.  The edges of the region of a non-empty cluster are attained, for
    every rounding [fl] of the float operations: region.x is the x of
    some box of the cluster, region.y the y of some box, region.w the
    computed difference (b.x + b.w) - region.x for some box b and
    region.h the computed difference (b.y + b.h) - region.y for some
    box b. *)
Theorem merged_region_edges_attained
    (fl : Q → Q) (i : nat) (cluster : list Box) :
  cluster ≠ [] →
  let region := merge_cluster_fl fl i cluster in
  (∃ b, b ∈ cluster ∧ merged_x region = box_x b)
  ∧ (∃ b, b ∈ cluster ∧ merged_y region = box_y b)
  ∧ (∃ b, b ∈ cluster
          ∧ merged_w region
            = fl (fl (box_x b + box_w b) - merged_x region)%Q)
  ∧ (∃ b, b ∈ cluster
          ∧ merged_h region
            = fl (fl (box_y b + box_h b) - merged_y region)%Q).
Proof.
  intros Hne region.
  assert (Hmap : ∀ f : Box → Q, map f cluster ≠ []).
  { intros f Hnil. by apply fmap_nil_inv in Hnil. }
  split_and!.
  - pose proof (py_min_attained _ (Hmap box_x)) as Hin.
    apply list_elem_of_fmap in Hin as (b & Hb & Hin). by exists b.
  - pose proof (py_min_attained _ (Hmap box_y)) as Hin.
    apply list_elem_of_fmap in Hin as (b & Hb & Hin). by exists b.
  - pose proof (py_max_attained _
                  (Hmap (λ b, fl_add fl (box_x b) (box_w b)))) as Hin.
    apply list_elem_of_fmap in Hin as (b & Hb & Hin). exists b.
    split; [done|]. unfold region, merge_cluster_fl, fl_sub. cbn.
    by rewrite Hb.
  - pose proof (py_max_attained _
                  (Hmap (λ b, fl_add fl (box_y b) (box_h b)))) as Hin.
    apply list_elem_of_fmap in Hin as (b & Hb & Hin). exists b.
    split; [done|]. unfold region, merge_cluster_fl, fl_sub. cbn.
    by rewrite Hb.
Qed.

(** X5.  Boxes of non-negative width and height give a region of non-negative
    width and height. *)
Theorem merged_region_size_nonneg (i : nat) (cluster : list Box) :
  cluster ≠ [] →
  (∀ b, b ∈ cluster → (0 <= box_w b)%Q ∧ (0 <= box_h b)%Q) →
  (0 <= merged_w (merge_cluster i cluster))%Q
  ∧ (0 <= merged_h (merge_cluster i cluster))%Q.
Proof.
  intros Hne Hpos. destruct cluster as [|b cluster]; [done|].
  pose proof (merge_cluster_bounds i (b :: cluster) b ltac:(by left))
    as (Hx & Hy & Hx1 & Hy1).
  destruct (Hpos b ltac:(by left)) as [Hw Hh]. split; lra.
Qed.

(* ===================================================================== *)
(** * What the parser returns when no field is malformed                   *)
(* ===================================================================== *)

Section ParsingMore.
Context `{Collaborators}.

Lemma parse_group_group_box (box : string) (m m' : gmap Z (list Box)) :
  parse_group box m = Some m' →
  (length (split "," box) = 5 → is_Some (group_box box))
  ∧ m' = match group_box box with
         | Some (p, b) => dict_append p b m
         | None => m
         end.
Proof.
  unfold parse_group, group_box.
  destruct (Nat.eqb_spec (length (split "," box)) 5) as [Hn|Hn].
  - intros Hg. simplify_option_eq. split; [by eexists|done].
  - intros [= <-]. done.
Qed.

Lemma page_boxes_app (p : Z) (l1 l2 : list string) :
  page_boxes p (l1 ++ l2) = page_boxes p l1 ++ page_boxes p l2.
Proof. unfold page_boxes. apply omap_app. Qed.

Lemma dict_holds_step (m : gmap Z (list Box)) (done_groups : list string)
    (box : string) (m' : gmap Z (list Box)) :
  dict_holds m done_groups → parse_group box m = Some m' →
  dict_holds m' (done_groups ++ [box]).
Proof.
  intros Hm Hg p. apply parse_group_group_box in Hg as [_ ->].
  rewrite page_boxes_app. unfold page_boxes at 2. simpl.
  destruct (group_box box) as [[q b]|]; simpl.
  - unfold dict_append. destruct (decide (q = p)) as [->|Hne].
    + rewrite lookup_insert_eq, bool_decide_eq_true_2 by done. simpl.
      rewrite (Hm p). destruct (page_boxes p done_groups); done.
    + rewrite lookup_insert_ne, bool_decide_eq_false_2 by done. simpl.
      rewrite app_nil_r. apply Hm.
  - rewrite app_nil_r. apply Hm.
Qed.

Lemma parse_groups_holds (groups : list string) :
  ∀ (m m' : gmap Z (list Box)) (done_groups : list string),
    dict_holds m done_groups → parse_groups groups m = Some m' →
    dict_holds m' (done_groups ++ groups).
Proof.
  induction groups as [|g groups IH]; intros m m' dg Hm; simpl.
  - intros [= <-]. by rewrite app_nil_r.
  - destruct (parse_group g m) as [m1|] eqn:Hg; [simpl|done].
    intros Hrest. rewrite (cons_middle g), app_assoc.
    eapply IH; [|exact Hrest]. by eapply dict_holds_step.
Qed.

Lemma parse_items_holds (items : list Element) :
  ∀ (m m' : gmap Z (list Box)) (done_groups : list string),
    dict_holds m done_groups → parse_items items m = Some m' →
    dict_holds m' (done_groups ++ coords_groups items).
Proof.
  induction items as [|it items IH]; intros m m' dg Hm; simpl.
  - intros [= <-]. by rewrite app_nil_r.
  - destruct (parse_item it m) as [m1|] eqn:Hi; [simpl|done].
    intros Hrest. rewrite app_assoc. eapply IH; [|exact Hrest].
    unfold parse_item in Hi.
    destruct (elem_get "coords" it) as [cs|].
    + destruct (String.eqb cs EmptyString).
      * injection Hi as <-. by rewrite app_nil_r.
      * by eapply parse_groups_holds.
    + injection Hi as <-. by rewrite app_nil_r.
Qed.

(** X6.  When the markup parses and no five-field group is malformed, the
    mapping holds, for every page, exactly the boxes of that page's
    groups in document order; pages without a group are absent. *)
Theorem extracted_boxes_keep_document_order
    (self : ReferenceRedactor) (w : World) (root : Element) :
  ET_parse (xml_path self) w = (Ok root, w) →
  (∀ g, g ∈ coords_groups (select_ref_items root) →
        length (split "," g) = 5 → is_Some (group_box g)) →
  ∃ boxes_by_page,
    _extract_raw_reference_boxes self w = (Ok boxes_by_page, w)
    ∧ ∀ p, boxes_by_page !! p
           = match page_boxes p (coords_groups (select_ref_items root)) with
             | [] => None
             | boxes => Some boxes
             end.
Proof.
  intros Hroot Hwf.
  assert (Hsome : ∀ groups m,
            (∀ g, g ∈ groups → length (split "," g) = 5 → is_Some (group_box g)) →
            is_Some (parse_groups groups m)).
  { induction groups as [|g groups IH]; intros m Hg; simpl; [by eexists|].
    assert (is_Some (parse_group g m)) as [m1 Hm1].
    { unfold parse_group.
      destruct (Nat.eqb_spec (length (split "," g)) 5) as [Hn|Hn]; [|by eexists].
      destruct (Hg g ltac:(by left) Hn) as [[p b] Hgb].
      unfold group_box in Hgb. rewrite Hn in Hgb. simpl in Hgb.
      simplify_option_eq. by eexists. }
    rewrite Hm1. simpl. apply IH. intros g' Hin. apply Hg. by right. }
  assert (Hitems : ∀ items m,
            (∀ g, g ∈ coords_groups items → length (split "," g) = 5 →
                  is_Some (group_box g)) →
            is_Some (parse_items items m)).
  { induction items as [|it items IH]; intros m Hg; simpl; [by eexists|].
    simpl in Hg.
    assert (is_Some (parse_item it m)) as [m1 Hm1].
    { unfold parse_item. destruct (elem_get "coords" it) as [cs|]; [|by eexists].
      destruct (String.eqb cs EmptyString); [by eexists|].
      apply Hsome. intros g Hin. apply Hg. apply elem_of_app. by left. }
    rewrite Hm1. simpl. apply IH. intros g Hin. apply Hg.
    apply elem_of_app. by right. }
  unfold _extract_raw_reference_boxes, try_except, bind. rewrite Hroot.
  unfold boxes_of_root.
  destruct (select_ref_items root) as [|i0 items] eqn:Hsel.
  - exists ∅. split; [done|]. intros p. by rewrite lookup_empty.
  - destruct (Hitems (i0 :: items) ∅ Hwf) as [m Hm]. rewrite Hm.
    exists m. split; [done|].
    apply (parse_items_holds (i0 :: items) ∅ m []); [|done].
    intros p. by rewrite lookup_empty.
Qed.
End ParsingMore.

(* ===================================================================== *)
(** * Page dimensions                                                      *)
(* ===================================================================== *)

Section PageDimensions.
Context `{Collaborators}.

(** One step of the surface loop. *)
Lemma page_dimensions_loop_snoc (surfaces : list Element) (s : Element) :
  page_dimensions_loop (surfaces ++ [s])
  = match surface_dim s with
    | Some (page_num, width, height) =>
        if Qgtb width 0 && Qgtb height 0
        then <[page_num := mkPageDim width height]>
               (page_dimensions_loop surfaces)
        else page_dimensions_loop surfaces
    | None => page_dimensions_loop surfaces
    end.
Proof. unfold page_dimensions_loop. by rewrite foldl_app. Qed.

Lemma page_dimensions_loop_positive (surfaces : list Element) (p : Z)
    (d : PageDim) :
  page_dimensions_loop surfaces !! p = Some d →
  (0 < width d)%Q ∧ (0 < height d)%Q
  ∧ ∃ s, s ∈ surfaces ∧ surface_dim s = Some (p, width d, height d).
Proof.
  induction surfaces as [|s surfaces IH] using rev_ind.
  - unfold page_dimensions_loop. simpl. by rewrite lookup_empty.
  - rewrite page_dimensions_loop_snoc.
    assert (Hold : page_dimensions_loop surfaces !! p = Some d →
              (0 < width d)%Q ∧ (0 < height d)%Q
              ∧ ∃ s0, s0 ∈ surfaces ++ [s]
                      ∧ surface_dim s0 = Some (p, width d, height d)).
    { intros Hl. destruct (IH Hl) as (Hw & Hh & s0 & Hin & Hs0).
      split_and!; [done..|]. exists s0. split; [|done].
      apply elem_of_app. by left. }
    destruct (surface_dim s) as [[[q wd] ht]|] eqn:Hs; [|done].
    destruct (Qgtb wd 0) eqn:Ew; [|done].
    destruct (Qgtb ht 0) eqn:Eh; [|done]. simpl.
    destruct (decide (q = p)) as [->|Hne].
    + rewrite lookup_insert_eq. intros [= <-]. simpl.
      apply Qgtb_gt in Ew, Eh. split_and!; [done..|].
      exists s. split; [|done]. apply elem_of_app. right. by left.
    + by rewrite lookup_insert_ne.
Qed.

(** X7.  Every page dimension that [_get_page_dimensions] returns is positive
    in width and height and was declared by a surface of the markup. *)
Theorem page_dimensions_are_positive
    (self : ReferenceRedactor) (w w' : World)
    (page_dimensions : gmap Z PageDim) (p : Z) (d : PageDim) :
  _get_page_dimensions self w = (Ok page_dimensions, w') →
  page_dimensions !! p = Some d →
  (0 < width d)%Q ∧ (0 < height d)%Q
  ∧ ∃ root s,
      ET_parse (xml_path self) w = (Ok root, w)
      ∧ s ∈ findall_surface root
      ∧ surface_dim s = Some (p, width d, height d).
Proof.
  unfold _get_page_dimensions, try_except, bind.
  pose proof (ET_parse_world (xml_path self) w) as Hw.
  destruct (ET_parse (xml_path self) w) as [[root|e] w1] eqn:Hroot;
    simpl in Hw; subst w1.
  - intros [= <- <-] Hl.
    destruct (page_dimensions_loop_positive _ _ _ Hl) as (Hwd & Hht & s & Hin & Hs).
    split_and!; [done..|]. by exists root, s.
  - intros [= <- <-] Hl. by rewrite lookup_empty in Hl.
Qed.

(** X8.  A surface that is malformed (no page index, or a field that [int] or
    [float] rejects) or that declares a non-positive width or height is
    skipped on its own: the result is the one of the markup without it. *)
Theorem page_dimensions_skip_bad_surface
    (before after : list Element) (s : Element) :
  (surface_dim s = None
   ∨ ∃ p wd ht, surface_dim s = Some (p, wd, ht)
                ∧ ((wd <= 0)%Q ∨ (ht <= 0)%Q)) →
  page_dimensions_loop (before ++ s :: after)
  = page_dimensions_loop (before ++ after).
Proof.
  intros Hbad. unfold page_dimensions_loop.
  rewrite !foldl_app. simpl. f_equal.
  destruct Hbad as [->|(p & wd & ht & -> & Hnp)]; [done|].
  destruct Hnp as [Hle|Hle]; apply Qgtb_le in Hle; rewrite Hle; [done|].
  by rewrite andb_false_r.
Qed.

(** X9.  The dimension kept for a page is the one of the last valid surface
    that declares the page: a later valid surface replaces an earlier
    one. *)
Theorem page_dimensions_last_surface_wins
    (before after : list Element) (s : Element) (p : Z) (wd ht : Q) :
  surface_dim s = Some (p, wd, ht) → (0 < wd)%Q → (0 < ht)%Q →
  (∀ s', s' ∈ after → ∀ wd' ht', surface_dim s' = Some (p, wd', ht') →
         (wd' <= 0)%Q ∨ (ht' <= 0)%Q) →
  page_dimensions_loop (before ++ s :: after) !! p
  = Some (mkPageDim wd ht).
Proof.
  intros Hs Hwd Hht. induction after as [|a after IH] using rev_ind; intros Hafter.
  - rewrite page_dimensions_loop_snoc, Hs.
    apply Qgtb_gt in Hwd, Hht. rewrite Hwd, Hht. simpl. apply lookup_insert_eq.
  - rewrite app_comm_cons, app_assoc, page_dimensions_loop_snoc.
    assert (IH' : page_dimensions_loop (before ++ s :: after) !! p
                  = Some (mkPageDim wd ht)).
    { apply IH. intros s' Hin. apply Hafter, elem_of_app. by left. }
    destruct (surface_dim a) as [[[q wd'] ht']|] eqn:Ha; [|done].
    destruct (Qgtb wd' 0 && Qgtb ht' 0) eqn:Hpos; [|done].
    destruct (decide (q = p)) as [->|Hne]; [|by rewrite lookup_insert_ne].
    exfalso. apply andb_true_iff in Hpos as [Hp1 Hp2].
    apply Qgtb_gt in Hp1, Hp2.
    destruct (Hafter a ltac:(apply elem_of_app; right; by left) wd' ht' Ha); lra.
Qed.
End PageDimensions.

(* ===================================================================== *)
(** * The order of the planned rectangles                                  *)
(* ===================================================================== *)

Section SortByPage.
Context {A : Type} (key : A → Z).

Lemma insert_by_Z_perm (a : A) (l : list A) :
  insert_by Z.ltb key a l ≡ₚ a :: l.
Proof.
  induction l as [|c l IH]; [done|].
  simpl. destruct (key c <? key a)%Z; [|done].
  rewrite IH. apply perm_swap.
Qed.

Lemma sort_by_Z_perm (l : list A) : sort_by Z.ltb key l ≡ₚ l.
Proof.
  induction l as [|a l IH]; [done|].
  simpl. by rewrite insert_by_Z_perm, IH.
Qed.

Lemma insert_by_Z_sorted (a : A) (l : list A) :
  StronglySorted (λ u v, key u ≤ key v)%Z l →
  StronglySorted (λ u v, key u ≤ key v)%Z (insert_by Z.ltb key a l).
Proof.
  induction l as [|c l IH]; intros Hs.
  - repeat constructor.
  - simpl. inversion Hs as [|? ? Hs' Hall]; subst.
    destruct (Z.ltb_spec (key c) (key a)) as [Hlt|Hge].
    + constructor; [by apply IH|].
      rewrite insert_by_Z_perm. constructor; [lia|done].
    + constructor; [done|]. constructor; [done|].
      eapply Forall_impl; [exact Hall|]. intros x Hx. simpl in Hx. lia.
Qed.

Lemma sort_by_Z_sorted (l : list A) :
  StronglySorted (λ u v, key u ≤ key v)%Z (sort_by Z.ltb key l).
Proof.
  induction l as [|a l IH]; [constructor|].
  simpl. by apply insert_by_Z_sorted.
Qed.
End SortByPage.

Section Planning2.
Context `{Collaborators}.

(** [sorted(boxes_by_page.items())]: the items of the dict, each once, in
    ascending page order. *)
Lemma sorted_items_spec (m : gmap Z (list Box)) :
  (∀ p boxes, (p, boxes) ∈ sorted_items m ↔ m !! p = Some boxes)
  ∧ NoDup (sorted_items m).*1
  ∧ StronglySorted (λ u v, u.1 ≤ v.1)%Z (sorted_items m).
Proof.
  unfold sorted_items. split_and!.
  - intros p boxes. rewrite sort_by_Z_perm. apply elem_of_map_to_list.
  - rewrite sort_by_Z_perm. apply NoDup_fst_map_to_list.
  - apply sort_by_Z_sorted.
Qed.

Lemma coords_foldl_flat_map (dims : gmap Z PageDim)
    (items : list (Z * list Box)) :
  ∀ acc,
    foldl (λ coords '(page_num, boxes),
             coords ++ page_coords dims page_num boxes) acc items
    = acc ++ List.flat_map (λ '(page_num, boxes),
                              page_coords dims page_num boxes) items.
Proof.
  induction items as [|[p bs] items IH]; intros acc; simpl.
  - by rewrite app_nil_r.
  - by rewrite IH, app_assoc.
Qed.

Lemma page_coords_page (dims : gmap Z PageDim) (p : Z) (boxes : list Box) :
  Forall (λ c, coord_page c = p) (page_coords dims p boxes).
Proof.
  unfold page_coords. apply Forall_forall. intros c Hc.
  apply list_elem_of_fmap in Hc as (b & -> & _). done.
Qed.

Lemma filter_all_page (p : Z) (l : list (Z * Q * Q * Q * Q)) :
  Forall (λ c, coord_page c = p) l →
  List.filter (λ c, (coord_page c =? p)%Z) l = l.
Proof.
  induction 1 as [|c l Hc _ IH]; [done|].
  simpl. rewrite IH. by rewrite (proj2 (Z.eqb_eq _ _) Hc).
Qed.

Lemma filter_no_page (p q : Z) (l : list (Z * Q * Q * Q * Q)) :
  q ≠ p → Forall (λ c, coord_page c = q) l →
  List.filter (λ c, (coord_page c =? p)%Z) l = [].
Proof.
  intros Hne. induction 1 as [|c l Hc _ IH]; [done|].
  simpl. rewrite IH. destruct (Z.eqb_spec (coord_page c) p); [congruence|done].
Qed.

Lemma flat_map_filter_page (dims : gmap Z PageDim) (p : Z)
    (items : list (Z * list Box)) :
  NoDup items.*1 →
  List.filter (λ c, (coord_page c =? p)%Z)
    (List.flat_map (λ '(page_num, boxes), page_coords dims page_num boxes)
                   items)
  = match list_find (λ it, it.1 = p) items with
    | Some (_, (_, boxes)) => page_coords dims p boxes
    | None => []
    end.
Proof.
  induction items as [|[q bs] items IH]; intros Hnd; [done|].
  simpl in Hnd. apply NoDup_cons in Hnd as [Hq Hnd].
  cbn [List.flat_map]. rewrite List.filter_app, (IH Hnd).
  cbn [list_find]. destruct (decide ((q, bs).1 = p)) as [Heq|Hne]; simpl in *.
  - subst q. rewrite filter_all_page by apply page_coords_page.
    destruct (list_find (λ it, it.1 = p) items) as [[i [q' bs']]|] eqn:Hf;
      [|by rewrite app_nil_r].
    apply list_find_Some in Hf as (Hl & Hp & _). simpl in Hp. subst q'.
    exfalso. apply Hq. apply list_elem_of_fmap. exists (p, bs').
    split; [done|]. by eapply list_elem_of_lookup_2.
  - rewrite (filter_no_page p q) by (done || apply page_coords_page). simpl.
    by destruct (list_find _ items) as [[i [q' bs']]|].
Qed.

Lemma flat_map_pages_sorted (dims : gmap Z PageDim)
    (items : list (Z * list Box)) :
  StronglySorted (λ u v, u.1 ≤ v.1)%Z items →
  StronglySorted Z.le
    (map coord_page
       (List.flat_map (λ '(page_num, boxes), page_coords dims page_num boxes)
                      items)).
Proof.
  induction 1 as [|[q bs] items Hs IH Hall]; [constructor|].
  cbn [List.flat_map]. rewrite map_app.
  apply StronglySorted_app. split_and!; [| |exact IH].
  - intros x1 x2 Hx1 Hx2.
    apply list_elem_of_fmap in Hx1 as (c1 & -> & Hc1).
    apply list_elem_of_fmap in Hx2 as (c2 & -> & Hc2).
    pose proof (page_coords_page dims q bs) as Hq.
    rewrite Forall_forall in Hq. rewrite (Hq c1 Hc1).
    apply list_elem_of_In, in_flat_map in Hc2 as ([q' bs'] & Hin & Hc2).
    apply list_elem_of_In in Hin, Hc2.
    pose proof (page_coords_page dims q' bs') as Hq'.
    rewrite Forall_forall in Hq'. rewrite (Hq' c2 Hc2).
    rewrite Forall_forall in Hall. apply (Hall (q', bs') Hin).
  - pose proof (page_coords_page dims q bs) as Hq.
    induction Hq as [|c l Hc Hl IHl]; [constructor|].
    simpl. constructor; [done|]. rewrite Hc.
    apply Forall_forall. intros x Hx.
    apply list_elem_of_fmap in Hx as (c' & -> & Hc').
    rewrite Forall_forall in Hl. by rewrite (Hl c' Hc').
Qed.

(** X10.  The planned tuples come in ascending page order, and the tuples of a
    page are the merged boxes of that page's raw boxes, in cluster order,
    computed with the page's declared size or 595 x 842 without one. *)
Theorem final_coordinates_by_page
    (self self' : ReferenceRedactor) (w w' : World)
    (boxes_by_page : gmap Z (list Box)) (page_dimensions : gmap Z PageDim) :
  _extract_raw_reference_boxes self w = (Ok boxes_by_page, w) →
  boxes_by_page ≠ ∅ →
  _get_page_dimensions self w = (Ok page_dimensions, w) →
  _calculate_final_coordinates self w = (Ok self', w') →
  StronglySorted Z.le (map coord_page (final_pymupdf_coords self'))
  ∧ ∀ p,
      List.filter (λ c, (coord_page c =? p)%Z) (final_pymupdf_coords self')
      = match boxes_by_page !! p with
        | Some boxes => page_coords page_dimensions p boxes
        | None => []
        end.
Proof.
  intros Hext Hne Hdims. unfold _calculate_final_coordinates, bind.
  rewrite Hext.
  destruct (Nat.eqb_spec (size boxes_by_page) 0) as [Hz|_].
  { by apply map_size_empty_iff in Hz. }
  rewrite Hdims. intros [= <- <-]. cbn [final_pymupdf_coords].
  rewrite (coords_foldl_flat_map page_dimensions _ []). cbn [app].
  destruct (sorted_items_spec boxes_by_page) as (Hin & Hnd & Hs).
  split; [by apply flat_map_pages_sorted|].
  intros p. rewrite flat_map_filter_page by done.
  destruct (list_find (λ it, it.1 = p) (sorted_items boxes_by_page))
    as [[i [q bs]]|] eqn:Hf.
  - apply list_find_Some in Hf as (Hl & Hp & _). simpl in Hp. subst q.
    apply list_elem_of_lookup_2, Hin in Hl. by rewrite Hl.
  - destruct (boxes_by_page !! p) as [bs|] eqn:Hl; [|done].
    apply Hin in Hl. rewrite list_find_None, Forall_forall in Hf.
    by specialize (Hf _ Hl).
Qed.
End Planning2.

(* ===================================================================== *)
(** * What the jobs write                                                  *)
(* ===================================================================== *)

Section JobsMore.
Context `{Collaborators}.

Lemma read_file_inv (p : string) (w w' : World) (r : result string) :
  read_file p w = (r, w') →
  w' = w ∧ ∀ data, r = Ok data → files w !! p = Some (File data).
Proof.
  unfold read_file. destruct (files w !! p) as [[d|]|];
    intros [= <- <-]; split; try done.
  by intros data [= ->].
Qed.

Lemma write_file_inv (p data : string) (w w' : World) (r : result unit) :
  write_file p data w = (r, w') →
  (r = Ok () ∧ files w' = <[p := File data]> (files w)
   ∧ writable w' = writable w ∧ service w' = service w
   ∧ files w !! p ≠ Some Dir)
  ∨ (∃ e, r = Raise e ∧ w' = w).
Proof.
  unfold write_file.
  destruct (files w !! p) as [[d|]|] eqn:Hp.
  - destruct (writable w p); intros [= <- <-]; [left|right; by eexists].
    split_and!; done.
  - intros [= <- <-]. right. by eexists.
  - destruct (writable w p); intros [= <- <-]; [left|right; by eexists].
    split_and!; done.
Qed.

(** X11.  The loop passes over every tuple whose page lies beyond the document;
    when all do, the engine is never called and the document is saved as
    it was opened. *)
Theorem draw_loop_skips_pages_beyond_document
    (fill_color : Z * Z * Z) (coords : list (Z * Q * Q * Q * Q)) (doc : Doc) :
  (∀ c, c ∈ coords → (doc_len doc < coord_page c)%Z) →
  draw_loop fill_color coords doc = Ok doc.
Proof.
  induction coords as [|[[[[p x0] y0] x1] y1] coords IH]; intros Hout; [done|].
  cbn [draw_loop].
  pose proof (Hout _ ltac:(by left)) as Hp. simpl in Hp.
  destruct (Z.ltb_spec (p - 1) (doc_len doc)); [lia|].
  apply IH. intros c Hc. apply Hout. by right.
Qed.

Lemma draw_rects_and_save_success_inv
    (self : ReferenceRedactor) (w w' : World) (msg : string) :
  _draw_rects_and_save self w = (Ok (true, msg), w') →
  ∃ data doc doc' bytes,
    files w !! pdf_path self = Some (File data)
    ∧ fitz_load data = Ok doc
    ∧ draw_loop (1, 1, 1)%Z (final_pymupdf_coords self) doc = Ok doc'
    ∧ doc_dump doc' = Ok bytes
    ∧ files w' = <[output_pdf_path self := File bytes]> (files w)
    ∧ msg = "Success (" +:+ pretty (length (final_pymupdf_coords self))
            +:+ " area(s) covered).".
Proof.
  unfold _draw_rects_and_save, try_except, fitz_open, doc_save, bind, lift, ret.
  destruct (read_file (pdf_path self) w) as [[data|e] w1] eqn:Hread;
    [|intros [= ?]; done].
  apply read_file_inv in Hread as [-> Hdata].
  destruct (fitz_load data) as [doc|e] eqn:Hload; [|intros [= ?]; done].
  change (String.eqb DELETION_APPEARANCE "whiteout") with true. cbv iota.
  destruct (draw_loop (1, 1, 1)%Z (final_pymupdf_coords self) doc)
    as [doc'|e] eqn:Hdraw; [|intros [= ?]; done].
  destruct (doc_dump doc') as [bytes|e] eqn:Hdump; [|intros [= ?]; done].
  destruct (write_file (output_pdf_path self) bytes w) as [[[]|e] w2] eqn:Hwrite;
    [|intros [= ?]; done].
  apply write_file_inv in Hwrite as [(_ & Hfiles & _)|(e & ? & _)]; [|done].
  destruct (doc_close doc') as [[]|e]; [|intros [= ?]; done].
  intros [= <- <-]. exists data, doc, doc', bytes.
  split_and!; auto.
Qed.

(** X12.  What a success of the drawing path means: the source was opened,
    every tuple within the document was drawn in white, the document was
    dumped and closed, the output path holds the dumped bytes, and the
    message counts all planned tuples, drawn or passed over. *)
Theorem draw_rects_and_save_success
    (self : ReferenceRedactor) (w w' : World) (msg : string) :
  _draw_rects_and_save self w = (Ok (true, msg), w') →
  ∃ data doc doc' bytes,
    files w !! pdf_path self = Some (File data)
    ∧ fitz_load data = Ok doc
    ∧ draw_loop (1, 1, 1)%Z (final_pymupdf_coords self) doc = Ok doc'
    ∧ doc_dump doc' = Ok bytes
    ∧ files w' = <[output_pdf_path self := File bytes]> (files w)
    ∧ msg = "Success (" +:+ pretty (length (final_pymupdf_coords self))
            +:+ " area(s) covered).".
Proof. apply draw_rects_and_save_success_inv. Qed.

(** X13.  [process] writes nowhere but at the output path, and a reported
    success means the output path holds a file. *)
Theorem process_writes_only_output
    (self : ReferenceRedactor) (w w' : World) (r : result (bool * string)) :
  files w !! output_pdf_path self ≠ Some Dir →
  process self w = (r, w') →
  (∀ p, p ≠ output_pdf_path self → files w' !! p = files w !! p)
  ∧ (∀ msg, r = Ok (true, msg) →
            ∃ bytes, files w' !! output_pdf_path self = Some (File bytes)).
Proof.
  intros Hdir. unfold process.
  destruct (os_path_exists w (pdf_path self)); simpl;
    [|intros [= <- <-]; split; [done|by intros msg [= ?]]].
  unfold bind at 1.
  destruct (calculate_total self w) as (self1 & -> & _ & Hpdf & Hout).
  destruct (final_pymupdf_coords self1) as [|c cs] eqn:Hc.
  - rewrite Hpdf, Hout. unfold bind, shutil_copy, bind, ret.
    destruct (files w !! output_pdf_path self) as [[d|]|] eqn:Ho; [|done|].
    all: destruct (bool_decide (pdf_path self = output_pdf_path self)
                   && os_path_exists w (pdf_path self));
      [intros [= <- <-]; split; [done|by intros msg [= ?]]|].
    all: destruct (read_file (pdf_path self) w) as [[data|e] w1] eqn:Hread;
      apply read_file_inv in Hread as [-> _];
      [|intros [= <- <-]; split; [done|by intros msg [= ?]]].
    all: destruct (write_file (output_pdf_path self) data w)
           as [[[]|e] w2] eqn:Hwrite;
      apply write_file_inv in Hwrite
        as [(? & Hfiles & _)|(e' & ? & ->)]; try done.
    all: intros [= <- <-]; split;
      [ intros p Hp; rewrite ?Hfiles; by rewrite ?lookup_insert_ne
      | intros msg Hmsg; try done ].
    all: exists data; rewrite Hfiles; apply lookup_insert_eq.
  - rewrite <- Hout in Hdir |- *.
    destruct (_draw_rects_and_save self1 w) as [r1 w1] eqn:Hdraw.
    intros [= <- <-]. split.
    + unfold _draw_rects_and_save, try_except, fitz_open, doc_save, bind,
        lift, ret in Hdraw.
      destruct (read_file (pdf_path self1) w) as [[data|e] w2] eqn:Hread;
        apply read_file_inv in Hread as [-> _];
        [|by injection Hdraw as <- <-].
      destruct (fitz_load data) as [doc|e]; [|by injection Hdraw as <- <-].
      destruct (draw_loop _ _ doc) as [doc'|e]; [|by injection Hdraw as <- <-].
      destruct (doc_dump doc') as [bytes|e]; [|by injection Hdraw as <- <-].
      destruct (write_file (output_pdf_path self1) bytes w)
        as [[[]|e] w2] eqn:Hwrite;
        apply write_file_inv in Hwrite
          as [(? & Hfiles & _)|(e' & ? & ->)]; try done.
      * intros p Hp.
        destruct (doc_close doc'); injection Hdraw as <- <-;
          rewrite Hfiles; by rewrite lookup_insert_ne.
      * by injection Hdraw as <- <-.
    + intros msg ->.
      destruct (draw_rects_and_save_success_inv self1 w w1 msg Hdraw)
        as (data & doc & doc' & bytes & _ & _ & _ & _ & Hfiles & _).
      exists bytes. rewrite Hfiles. apply lookup_insert_eq.
Qed.
(** X14.  The extraction job writes the markup file only when the service
    answered 200, and then the file holds the response body as it is;
    no other path changes. *)
Theorem extraction_job_success
    (pdf output_xml url : string) (w w' : World) (msg : string) :
  _get_raw_xml_from_grobid pdf output_xml url w = (Ok (true, msg), w') →
  ∃ data response,
    files w !! pdf = Some (File data)
    ∧ service w url (os_path_basename pdf) data = Ok response
    ∧ status_code response = 200%Z
    ∧ files w' = <[output_xml := File (content response)]> (files w)
    ∧ msg = "Success".
Proof.
  unfold _get_raw_xml_from_grobid, try_except, requests_post, bind, ret.
  destruct (read_file pdf w) as [[data|e] w1] eqn:Hread.
  2:{ destruct (exn_cls e); intros [= ?]; done. }
  apply read_file_inv in Hread as [-> Hdata].
  destruct (service w url (os_path_basename pdf) data) as [response|e] eqn:Hs.
  2:{ destruct (exn_cls e); intros [= ?]; done. }
  destruct (Z.eqb_spec (status_code response) 200) as [Hst|Hst];
    [|intros [= ?]; done].
  destruct (write_file output_xml (content response) w) as [[[]|e] w2] eqn:Hwrite.
  2:{ destruct (exn_cls e); intros [= ?]; done. }
  apply write_file_inv in Hwrite as [(_ & Hfiles & _)|(e & ? & _)]; [|done].
  intros [= <- <-]. exists data, response. split_and!; auto.
Qed.

(** X15.  A failure of the extraction service, by status or by exception, is
    reported with its status code or its text, and nothing is written. *)
Theorem extraction_job_service_failure
    (pdf output_xml url : string) (w : World) (data : string) :
  files w !! pdf = Some (File data) →
  match service w url (os_path_basename pdf) data with
  | Ok response =>
      status_code response ≠ 200%Z →
      _get_raw_xml_from_grobid pdf output_xml url w
      = (Ok (false, "GROBID returned status "
                    +:+ pretty (status_code response)), w)
  | Raise e =>
      _get_raw_xml_from_grobid pdf output_xml url w
      = (Ok (false, match exn_cls e with
                    | RequestException => "Request Error: " +:+ exn_str e
                    | OtherException =>
                        "An unexpected error occurred: " +:+ exn_str e
                    end), w)
  end.
Proof.
  intros Hdata.
  unfold _get_raw_xml_from_grobid, try_except, requests_post, bind, ret,
    read_file.
  rewrite Hdata.
  destruct (service w url (os_path_basename pdf) data) as [response|e].
  - intros Hst. by destruct (Z.eqb_spec (status_code response) 200).
  - by destruct (exn_cls e).
Qed.
End JobsMore.

(* ===================================================================== *)
(** * File names                                                           *)
(* ===================================================================== *)

Lemma String_app (c : ascii) (a b : string) :
  String c a +:+ b = String c (a +:+ b).
Proof. reflexivity. Qed.

Lemma string_length_app (a b : string) :
  String.length (a +:+ b) = String.length a + String.length b.
Proof. induction a as [|c a IH]; [done|]. rewrite String_app. simpl. by rewrite IH. Qed.

Lemma string_app_nil_r (a : string) : a +:+ EmptyString = a.
Proof. induction a as [|c a IH]; [done|]. by rewrite String_app, IH. Qed.

Lemma string_app_assoc (a b c : string) : (a +:+ b) +:+ c = a +:+ b +:+ c.
Proof. induction a as [|d a IH]; [done|]. by rewrite !String_app, IH. Qed.

Lemma substring_0_0 (s : string) : substring 0 0 s = EmptyString.
Proof. by destruct s. Qed.

Lemma substring_whole (s : string) : substring 0 (String.length s) s = s.
Proof. induction s as [|c s IH]; [done|]. simpl. by rewrite IH. Qed.

Lemma substring_app_l (a b : string) :
  substring 0 (String.length a) (a +:+ b) = a.
Proof.
  induction a as [|c a IH]; [apply substring_0_0|].
  rewrite String_app. simpl. by rewrite IH.
Qed.

Lemma substring_app_r (a b : string) (n : nat) :
  substring (String.length a) n (a +:+ b) = substring 0 n b.
Proof. induction a as [|c a IH]; [done|]. rewrite String_app. by simpl. Qed.

Lemma substring_char_app (a b : string) (c : ascii) :
  substring (String.length a) 1 (a +:+ String c b) = String c EmptyString.
Proof. rewrite substring_app_r. simpl. by rewrite substring_0_0. Qed.

Lemma rfind_from_absent (c : ascii) (s : string) :
  has_char c s = false → ∀ i found, rfind_from c s i found = found.
Proof.
  induction s as [|d s IH]; intros Hc i found; [done|].
  simpl in *. apply orb_false_iff in Hc as [-> Hc]. by apply IH.
Qed.

Lemma rfind_from_app (c : ascii) (a b : string) :
  ∀ i found,
    rfind_from c (a +:+ b) i found
    = rfind_from c b (i + Z.of_nat (String.length a))
                 (rfind_from c a i found).
Proof.
  induction a as [|d a IH]; intros i found.
  - simpl. f_equal. lia.
  - rewrite String_app. simpl. rewrite IH. f_equal. lia.
Qed.

Lemma rfind_last (c : ascii) (a b : string) :
  has_char c b = false →
  rfind c (a +:+ String c b) = Z.of_nat (String.length a).
Proof.
  intros Hb. unfold rfind. rewrite rfind_from_app. simpl.
  rewrite Ascii.eqb_refl. by apply rfind_from_absent.
Qed.

Lemma has_char_app (c : ascii) (a b : string) :
  has_char c (a +:+ b) = has_char c a || has_char c b.
Proof.
  induction a as [|d a IH]; [done|].
  rewrite String_app. simpl. by rewrite IH, orb_assoc.
Qed.

Lemma rfind_absent (c : ascii) (s : string) :
  has_char c s = false → rfind c s = (-1)%Z.
Proof. intros Hc. by apply rfind_from_absent. Qed.

(** The loop splits as soon as it meets a character other than a dot. *)
Lemma splitext_loop_found (p : string) (dotIndex : nat) (remaining : nat) :
  ∀ filenameIndex j,
    filenameIndex ≤ j < filenameIndex + remaining →
    String.eqb (substring j 1 p) "." = false →
    splitext_loop p dotIndex filenameIndex remaining
    = (substring 0 dotIndex p,
       substring dotIndex (String.length p - dotIndex) p).
Proof.
  induction remaining as [|r IH]; intros i j Hj Hnd; [lia|].
  simpl. destruct (String.eqb (substring i 1 p) ".") eqn:E; [|done].
  simpl. apply (IH (S i) j); [|done].
  destruct (decide (i = j)) as [->|]; [congruence|lia].
Qed.

(** A name [stem.ext] without a directory part, whose stem has a
    character other than a dot, splits into [stem] and [.ext]. *)
Lemma splitext_stem_ext (before after ext : string) (c : ascii) :
  c ≠ "."%char →
  has_char "/" (before +:+ String c after) = false →
  has_char "." ext = false → has_char "/" ext = false →
  os_path_splitext ((before +:+ String c after) +:+ String "." ext)
  = (before +:+ String c after, String "." ext).
Proof.
  intros Hc Hsep Hdot Hsep'.
  set (stem := before +:+ String c after) in *.
  unfold os_path_splitext.
  rewrite (rfind_last "." stem ext Hdot).
  rewrite (rfind_absent "/").
  2:{ rewrite has_char_app. simpl. by rewrite Hsep, Hsep'. }
  destruct (Z.ltb_spec (-1) (Z.of_nat (String.length stem))); [|lia].
  rewrite Nat2Z.id.
  replace (Z.to_nat (-1 + 1)) with 0 by lia.
  replace (Z.to_nat (Z.of_nat (String.length stem) - (-1 + 1)))
    with (String.length stem) by lia.
  rewrite (splitext_loop_found _ _ _ 0 (String.length before)).
  - rewrite substring_app_l, substring_app_r, string_length_app.
    f_equal. replace (String.length stem + String.length (String "." ext)
                      - String.length stem)
      with (String.length (String "." ext)) by lia.
    apply substring_whole.
  - unfold stem. rewrite string_length_app. simpl. lia.
  - unfold stem. rewrite string_app_assoc, String_app, substring_char_app.
    destruct (String.eqb_spec (String c EmptyString) ".") as [Heq|]; [|done].
    by injection Heq.
Qed.

Lemma string_app_inj_l (a b c : string) : a +:+ b = a +:+ c → b = c.
Proof.
  induction a as [|d a IH]; [done|].
  rewrite !String_app. intros [= Heq]. by apply IH.
Qed.

(** X16.  For a PDF named [stem.ext] the markup is named [stem.xml], and the
    redaction job looks for [stem.pdf]: the PDF's own name exactly when
    its extension is spelled [pdf]. *)
Theorem markup_name_round_trip (before after ext : string) (c : ascii) :
  c ≠ "."%char →
  has_char "/" (before +:+ String c after) = false →
  has_char "." ext = false → has_char "/" ext = false →
  let stem := before +:+ String c after in
  let filename := stem +:+ String "." ext in
  xml_filename_of filename = stem +:+ ".xml"
  ∧ pdf_filename_of (xml_filename_of filename) = stem +:+ ".pdf"
  ∧ (pdf_filename_of (xml_filename_of filename) = filename ↔ ext = "pdf").
Proof.
  intros Hc Hsep Hdot Hsep' stem filename.
  assert (Hxml : xml_filename_of filename = stem +:+ ".xml").
  { unfold xml_filename_of, filename, stem.
    by rewrite splitext_stem_ext. }
  assert (Hpdf : pdf_filename_of (xml_filename_of filename) = stem +:+ ".pdf").
  { rewrite Hxml. unfold pdf_filename_of, stem.
    by rewrite (splitext_stem_ext before after "xml" c). }
  split_and!; [done..|].
  rewrite Hpdf. unfold filename. split.
  - intros Heq%string_app_inj_l. by injection Heq.
  - by intros ->.
Qed.

(** Where [.pdf] can start a name that ends in [.pdf]. *)
Lemma prefix_pdf_app (s : string) :
  String.prefix ".pdf" (s +:+ ".pdf") = true →
  s = EmptyString ∨ ∃ s', s = ".pdf" +:+ s'.
Proof.
  destruct s as [|c0 [|c1 [|c2 [|c3 s']]]]; [by left|..];
    rewrite ?String_app; cbn -[ascii_dec]; intros Hp;
    repeat match type of Hp with
           | context [ascii_dec ?a ?b] =>
               destruct (ascii_dec a b) as [?|?];
               [try discriminate; subst|discriminate]
           end.
  right. by exists s'.
Qed.

Lemma replace_from_match (old new : string) (c : ascii) (s : string) :
  String.prefix old (String c s) = true →
  replace_from old new (String c s) 0
  = new +:+ replace_from old new s (String.length old - 1).
Proof. cbn [replace_from]. by intros ->. Qed.

Lemma replace_pdf_step (s' : string) :
  str_replace ".pdf" "_cleaned.pdf" (".pdf" +:+ s')
  = "_cleaned.pdf" +:+ str_replace ".pdf" "_cleaned.pdf" s'.
Proof.
  unfold str_replace.
  change (".pdf" +:+ s') with (String "." ("pdf" +:+ s')).
  rewrite replace_from_match by (by destruct s').
  reflexivity.
Qed.

Lemma replace_pdf_other (c : ascii) (s : string) :
  String.prefix ".pdf" (String c s) = false →
  str_replace ".pdf" "_cleaned.pdf" (String c s)
  = String c (str_replace ".pdf" "_cleaned.pdf" s).
Proof. unfold str_replace. cbn [replace_from]. by intros ->. Qed.

Lemma output_name_suffix (n : nat) :
  ∀ stem, String.length stem ≤ n →
    (∃ pre, output_filename_of (stem +:+ ".pdf") = pre +:+ "_cleaned.pdf")
    ∧ String.length stem + 12
      ≤ String.length (output_filename_of (stem +:+ ".pdf")).
Proof.
  unfold output_filename_of.
  induction n as [|n IH]; intros stem Hlen.
  - destruct stem; [|simpl in Hlen; lia].
    split; [by exists EmptyString|]. vm_compute. lia.
  - destruct (String.prefix ".pdf" (stem +:+ ".pdf")) eqn:Hp.
    + apply prefix_pdf_app in Hp as [->|[s' ->]].
      * split; [by exists EmptyString|]. vm_compute. lia.
      * rewrite string_app_assoc, replace_pdf_step.
        rewrite string_length_app in Hlen. simpl in Hlen.
        destruct (IH s' ltac:(lia)) as [[pre Hpre] Hl].
        split.
        -- exists ("_cleaned.pdf" +:+ pre). by rewrite Hpre, string_app_assoc.
        -- rewrite !string_length_app. simpl. lia.
    + destruct stem as [|c stem]; [done|].
      rewrite String_app in Hp |- *. rewrite replace_pdf_other by done.
      simpl in Hlen. destruct (IH stem ltac:(lia)) as [[pre Hpre] Hl].
      split.
      * exists (String c pre). by rewrite Hpre.
      * simpl. lia.
Qed.

(** X17.  The output name made for any PDF name [stem.pdf] ends in
    [_cleaned.pdf] and is never the PDF name itself. *)
Theorem output_name_is_not_source_name (stem : string) :
  (∃ pre, output_filename_of (stem +:+ ".pdf") = pre +:+ "_cleaned.pdf")
  ∧ output_filename_of (stem +:+ ".pdf") ≠ stem +:+ ".pdf".
Proof.
  destruct (output_name_suffix (String.length stem) stem ltac:(done))
    as [Hpre Hl].
  split; [done|]. intros Heq. rewrite Heq, string_length_app in Hl.
  simpl in Hl. lia.
Qed.

Lemma output_name_plain (stem : string) :
  occurs_in ".pdf" stem = false →
  output_filename_of (stem +:+ ".pdf") = stem +:+ "_cleaned.pdf".
Proof.
  unfold output_filename_of.
  induction stem as [|c stem IH]; intros Hocc; [reflexivity|].
  cbn [occurs_in] in Hocc. apply orb_false_iff in Hocc as [Hp Hocc].
  rewrite !String_app, replace_pdf_other, IH; [done..|].
  destruct (String.prefix ".pdf" (String c (stem +:+ ".pdf"))) eqn:Hp'; [|done].
  rewrite <- String_app in Hp'.
  apply prefix_pdf_app in Hp' as [?|[s' Heq]]; [done|].
  rewrite Heq in Hp. by destruct s'.
Qed.

Section SingleRedactionFacts.
Context `{Collaborators}.

(** X18.  The redaction job for the markup [stem.xml] reads the PDF [stem.pdf]
    of the PDF directory and writes [stem_cleaned.pdf] in the output
    directory. *)
Theorem single_redaction_paths (self : BatchRedactionManager)
    (before after : string) (c : ascii) :
  c ≠ "."%char →
  has_char "/" (before +:+ String c after) = false →
  occurs_in ".pdf" (before +:+ String c after) = false →
  let stem := before +:+ String c after in
  _process_single_redaction self (stem +:+ ".xml")
  = process (new_redactor
               (os_path_join (xml_dir self) (stem +:+ ".xml"))
               (os_path_join (pdf_dir self) (stem +:+ ".pdf"))
               (os_path_join (redacted_dir self) (stem +:+ "_cleaned.pdf"))).
Proof.
  intros Hc Hsep Hocc stem. unfold _process_single_redaction.
  unfold stem. rewrite (splitext_stem_ext before after "xml" c) by done.
  cbn [fst]. fold (output_filename_of ((before +:+ String c after) +:+ ".pdf")).
  by rewrite output_name_plain.
Qed.
End SingleRedactionFacts.

(* ===================================================================== *)
(** * Further worked examples                                              *)
(* ===================================================================== *)



Lemma edges_attained_example :
  ∃ b, b ∈ ex_rounding_pair
       ∧ merged_w (merge_cluster_fl binary64 0 ex_rounding_pair)
         = binary64
             (binary64 (box_x b + box_w b)
              - merged_x (merge_cluster_fl binary64 0 ex_rounding_pair)).
Proof.
  assert (Hne : ex_rounding_pair ≠ []) by discriminate.
  exact (proj1 (proj2 (proj2
           (merged_region_edges_attained binary64 0 ex_rounding_pair Hne)))).
Defined.

Lemma region_size_example :
  (0 <= merged_w (merge_cluster 0 ex_page))%Q
  ∧ (0 <= merged_h (merge_cluster 0 ex_page))%Q.
Proof.
  apply merged_region_size_nonneg; [discriminate|].
  intros b Hb. unfold ex_page in Hb.
  repeat (apply elem_of_cons in Hb as [->|Hb]; [split; vm_compute; discriminate|]).
  by apply elem_of_nil in Hb.
Defined.

Lemma document_order_example :
  ∃ boxes_by_page,
    @_extract_raw_reference_boxes
        (with_markup [bibl "2,1,1,1,1;1,10,20,30,40;junk"; bibl "1,5,5,5,5"])
        ex_redactor (ex_world true)
    = (Ok boxes_by_page, ex_world true)
    ∧ boxes_by_page !! 1%Z = Some [mkBox 10 20 30 40; mkBox 5 5 5 5].
Proof.
  destruct (@extracted_boxes_keep_document_order
              (with_markup [bibl "2,1,1,1,1;1,10,20,30,40;junk"; bibl "1,5,5,5,5"])
              ex_redactor (ex_world true)
              (markup_of [bibl "2,1,1,1,1;1,10,20,30,40;junk"; bibl "1,5,5,5,5"]))
    as (m & Hm & Hall).
  - reflexivity.
  - intros g Hg Hlen. vm_compute in Hg.
    repeat (apply elem_of_cons in Hg as [->|Hg];
            [first [vm_compute in Hlen; lia
                   | vm_compute; eexists; reflexivity]|]).
    by apply elem_of_nil in Hg.
  - exists m. split; [exact Hm|]. rewrite (Hall 1%Z). reflexivity.
Defined.

Lemma page_dimensions_example :
  ∃ page_dimensions,
    @_get_page_dimensions
        (with_document [surface "1" "612" "792"; surface "x" "1" "1";
                        surface "2" "0" "5"] [])
        ex_redactor (ex_world true)
    = (Ok page_dimensions, ex_world true)
    ∧ map_Forall (λ _ d, (0 < width d)%Q ∧ (0 < height d)%Q) page_dimensions.
Proof.
  eexists. split; [reflexivity|].
  intros p d Hlook.
  destruct (@page_dimensions_are_positive
              (with_document [surface "1" "612" "792"; surface "x" "1" "1";
                              surface "2" "0" "5"] [])
              ex_redactor (ex_world true) (ex_world true) _ p d
              eq_refl Hlook) as (Hw & Hh & _).
  exact (conj Hw Hh).
Defined.

Lemma skip_bad_surface_example :
  @page_dimensions_loop (with_document [] [])
    ([surface "1" "612" "792"] ++ surface "x" "612" "792"
       :: [surface "2" "595" "842"])
  = @page_dimensions_loop (with_document [] [])
      ([surface "1" "612" "792"] ++ [surface "2" "595" "842"]).
Proof.
  apply (@page_dimensions_skip_bad_surface (with_document [] [])).
  left. reflexivity.
Defined.

Lemma last_surface_wins_example :
  @page_dimensions_loop (with_document [] [])
    ([surface "1" "612" "792"] ++ surface "1" "595" "842"
       :: [surface "1" "0" "842"]) !! 1%Z
  = Some (mkPageDim 595 842).
Proof.
  apply (@page_dimensions_last_surface_wins (with_document [] [])).
  - reflexivity.
  - reflexivity.
  - reflexivity.
  - intros s' Hs' wd' ht' Hdim.
    apply list_elem_of_singleton in Hs'. subst s'.
    vm_compute in Hdim. injection Hdim as <- <-. left. discriminate.
Defined.

Lemma final_coordinates_example :
  ∃ self',
    @_calculate_final_coordinates
        (with_document [surface "1" "612" "792"]
           [bibl "2,50,200,100,10;1,50,300,100,10"])
        ex_redactor (ex_world true)
    = (Ok self', ex_world true)
    ∧ StronglySorted Z.le (map coord_page (final_pymupdf_coords self')).
Proof.
  eexists. split; [reflexivity|].
  eapply (@final_coordinates_by_page
            (with_document [surface "1" "612" "792"]
               [bibl "2,50,200,100,10;1,50,300,100,10"])
            ex_redactor _ (ex_world true) (ex_world true)).
  - reflexivity.
  - intros Hempty. apply (f_equal (λ m, m !! 1%Z)) in Hempty.
    vm_compute in Hempty. discriminate.
  - reflexivity.
  - reflexivity.
Defined.

Lemma draw_loop_skip_example :
  @draw_loop (with_markup []) (1, 1, 1)%Z
    [(5%Z, 1%Q, 2%Q, 3%Q, 4%Q); (9%Z, 1%Q, 2%Q, 3%Q, 4%Q)] [[]; []]
  = Ok [[]; []].
Proof.
  apply (@draw_loop_skips_pages_beyond_document (with_markup [])).
  intros c Hc.
  repeat (apply elem_of_cons in Hc as [->|Hc]; [vm_compute; reflexivity|]).
  by apply elem_of_nil in Hc.
Defined.

Lemma draw_success_example :
  ∃ w',
    @_draw_rects_and_save (with_markup [])
        (mkRedactor "xml/a.xml" "pdf/a.pdf" "out/a_cleaned.pdf"
           [(1%Z, 50%Q, 300%Q, 150%Q, 310%Q); (7%Z, 50%Q, 300%Q, 150%Q, 310%Q)])
        (ex_world true)
    = (Ok (true, "Success (2 area(s) covered)."), w')
    ∧ files w' !! "out/a_cleaned.pdf" = Some (File "redacted").
Proof.
  set (self := mkRedactor "xml/a.xml" "pdf/a.pdf" "out/a_cleaned.pdf"
                 [(1%Z, 50%Q, 300%Q, 150%Q, 310%Q);
                  (7%Z, 50%Q, 300%Q, 150%Q, 310%Q)]).
  assert (Hres : (@_draw_rects_and_save (with_markup []) self (ex_world true)).1
                 = Ok (true, "Success (2 area(s) covered).")) by reflexivity.
  destruct (@_draw_rects_and_save (with_markup []) self (ex_world true))
    as [r w'] eqn:Hrun.
  simpl in Hres. subst r. exists w'. split; [reflexivity|].
  destruct (@draw_rects_and_save_success (with_markup []) self
              (ex_world true) w' _ Hrun)
    as (data & doc & doc' & bytes & _ & _ & _ & Hdump & Hfiles & _).
  injection Hdump as <-. rewrite Hfiles. apply lookup_insert_eq.
Defined.

Lemma process_writes_only_output_example :
  files (@process (with_markup [bibl "1,50,300,100,10"])
           ex_redactor (ex_world true)).2 !! "pdf/a.pdf"
  = Some (File "%PDF").
Proof.
  pose proof (@process_writes_only_output
                (with_markup [bibl "1,50,300,100,10"])
                ex_redactor (ex_world true) _ _
                ltac:(vm_compute; discriminate)
                (surjective_pairing _)) as [Hframe _].
  rewrite (Hframe "pdf/a.pdf") by discriminate. reflexivity.
Defined.

Lemma extraction_success_example :
  ∃ w',
    @_get_raw_xml_from_grobid (with_markup []) "pdf/a.pdf" "xml/a.xml"
        "http://localhost:8070/api/processFulltextDocument"
        (ex_service_world (Ok (mkResponse 200 "<TEI/>")))
    = (Ok (true, "Success"), w')
    ∧ files w' !! "xml/a.xml" = Some (File "<TEI/>").
Proof.
  assert (Hres :
    (@_get_raw_xml_from_grobid (with_markup []) "pdf/a.pdf" "xml/a.xml"
        "http://localhost:8070/api/processFulltextDocument"
        (ex_service_world (Ok (mkResponse 200 "<TEI/>")))).1
    = Ok (true, "Success")) by reflexivity.
  destruct (@_get_raw_xml_from_grobid (with_markup []) "pdf/a.pdf" "xml/a.xml"
              "http://localhost:8070/api/processFulltextDocument"
              (ex_service_world (Ok (mkResponse 200 "<TEI/>"))))
    as [r w'] eqn:Hrun.
  simpl in Hres. subst r. exists w'. split; [reflexivity|].
  destruct (@extraction_job_success (with_markup []) "pdf/a.pdf" "xml/a.xml"
              "http://localhost:8070/api/processFulltextDocument"
              (ex_service_world (Ok (mkResponse 200 "<TEI/>"))) w' _ Hrun)
    as (data & response & _ & Hresp & _ & Hfiles & _).
  injection Hresp as <-. rewrite Hfiles. apply lookup_insert_eq.
Defined.

Lemma extraction_failure_example :
  @_get_raw_xml_from_grobid (with_markup []) "pdf/a.pdf" "xml/a.xml"
      "http://localhost:8070/api/processFulltextDocument"
      (ex_service_world (Ok (mkResponse 503 "busy")))
  = (Ok (false, "GROBID returned status 503"),
     ex_service_world (Ok (mkResponse 503 "busy"))).
Proof.
  apply (@extraction_job_service_failure (with_markup []) "pdf/a.pdf"
           "xml/a.xml" "http://localhost:8070/api/processFulltextDocument"
           (ex_service_world (Ok (mkResponse 503 "busy"))) "%PDF" eq_refl).
  discriminate.
Defined.

Lemma round_trip_example :
  pdf_filename_of (xml_filename_of "2101.00123.PDF") = "2101.00123.pdf".
Proof.
  exact (proj1 (proj2 (markup_name_round_trip "" "101.00123" "PDF" "2"
                         ltac:(discriminate) eq_refl eq_refl eq_refl))).
Defined.

Lemma single_redaction_example :
  @_process_single_redaction (with_markup []) ex_manager "paper.v2.xml"
  = @process (with_markup [])
      (new_redactor "grobid_raw_xml_output/paper.v2.xml"
                    "pdf_source/paper.v2.pdf"
                    "redacted_pdf_output/paper.v2_cleaned.pdf").
Proof.
  exact (@single_redaction_paths (with_markup []) ex_manager "" "aper.v2" "p"
           ltac:(discriminate) eq_refl eq_refl).
Defined.
